(** * financial_friend: the API routers and the news-agent drafts

    A shallow embedding of the parts of the repository that its
    specification makes checkable statements about:

    - [system_design/enums.py], [system_design/db_schema_design.py],
      [system_design/routers/agent_tasks.py] (module [AgentTasks]);
    - [system_design/routers/sessions.py] (module [Sessions]);
    - [system_design/routers/users.py] (module [Users]);
    - [system_design/utils.py] (modules [PyStr], [Utils]);
    - [system_design/api_test.py] (module [NewsRouter]);
    - [streamlit_prototype/st_news_agent_draft_v1.py] and
      [streamlit_prototype/st_news_agent_draft_v2.py] (modules [Estimator],
      [NormalizeUrl], [SimHash]).

    The definitions come first, one module per source file or concern; the
    properties follow, in a module [...Facts] for each.

    Conventions.  A table is a finite map from its primary key to the row
    (the key is not repeated inside the row).  A handler takes the table and
    the value [datetime.utcnow()] returns during the call, and gives back the
    table after its [db.commit()] together with its response; a handler that
    raises leaves the table as it was.  Timestamps are microseconds (the
    resolution of Python's [datetime]) as [Z].  Library functions the source
    calls and whose code is elsewhere ([hashlib], [str.lower], [re.findall])
    are variables of a section: what is proved holds whatever they
    compute. *)

From Stdlib Require Import ZArith Lia List Bool Ascii String SpecFloat.
From stdpp Require Import base option list gmap sets strings sorting.

Local Open Scope Z_scope.

(** ** HTTP responses *)

(** [fastapi.HTTPException(status_code, detail)]. *)
Record HTTPException := mkHTTPException {
  status_code : Z;
  detail : string
}.

(** What a handler answers: the value it returns, or the exception it
    raises. *)
Inductive response (A : Type) : Type :=
| Returned (a : A)
| Raised (e : HTTPException).
Arguments Returned {A} a.
Arguments Raised {A} e.

Definition HTTP_400_BAD_REQUEST : Z := 400.
Definition HTTP_401_UNAUTHORIZED : Z := 401.
Definition HTTP_404_NOT_FOUND : Z := 404.

(** JSON payloads ([dict] arguments and [JSON] columns). *)
#[warnings="-register-all"]
Inductive json : Type :=
| JNull
| JBool (b : bool)
| JNum (n : Z)
| JStr (s : string)
| JArr (items : list json)
| JObj (fields : list (string * json)).

Definition dict : Type := list (string * json).

(** ** Agent tasks: [enums.py], [db_schema_design.py] and
    [routers/agent_tasks.py] *)

Module AgentTasks.

(** [enums.TaskStatus]: the class the router imports, compares with and
    assigns. *)
Inductive TaskStatus : Type :=
| PENDING
| IN_PROGRESS
| COMPLETED
| FAILED
| CANCELLED.

#[global] Instance TaskStatus_eq_dec : EqDecision TaskStatus.
Proof. solve_decision. Defined.

(** [TaskStatus.value]. *)
Definition value (s : TaskStatus) : string :=
  match s with
  | PENDING => "pending"
  | IN_PROGRESS => "in_progress"
  | COMPLETED => "completed"
  | FAILED => "failed"
  | CANCELLED => "cancelled"
  end.

(** [TaskStatus.is_terminal]: membership in
    [(COMPLETED, FAILED, CANCELLED)]. *)
Definition is_terminal (s : TaskStatus) : bool :=
  match s with
  | COMPLETED | FAILED | CANCELLED => true
  | PENDING | IN_PROGRESS => false
  end.

(** [db_schema_design.TaskStatus]: another class of the same name, the one
    the column [agent_tasks.status] is typed with ([Enum(TaskStatus)] in
    that file).  It has no member [CANCELLED]. *)
Module Column.

Inductive TaskStatus : Type :=
| PENDING
| IN_PROGRESS
| COMPLETED
| FAILED.

#[global] Instance column_status_eq_dec : EqDecision TaskStatus.
Proof. solve_decision. Defined.

Definition value (s : TaskStatus) : string :=
  match s with
  | PENDING => "pending"
  | IN_PROGRESS => "in_progress"
  | COMPLETED => "completed"
  | FAILED => "failed"
  end.

End Column.

(** What the attribute [status] of a task object holds: [None] (the column
    is nullable), a member of the column's class (what a query loads), or a
    member of the router's class (what the handlers assign).  Python
    compares the members of an [Enum] by identity, so a member of one class
    never equals a member of the other, whatever their names and values. *)
Inductive status_attr : Type :=
| PyNone
| Stored (s : Column.TaskStatus)
| Assigned (s : TaskStatus).

#[global] Instance status_attr_eq_dec : EqDecision status_attr.
Proof. solve_decision. Defined.

(** A row of [agent_tasks]; [task_id] is the key of the table. *)
Record AgentTask := mkAgentTask {
  agent_id : Z;
  session_id : Z;
  dialogue_id : option Z;
  input_data : option dict;
  output_data : option dict;
  status : option Column.TaskStatus;
  error_reason : option string;
  duration_ms : option Z;
  created_at : Z
}.

(** The attribute [task.status] of a row a query has loaded. *)
Definition loaded (task : AgentTask) : status_attr :=
  match status task with
  | Some s => Stored s
  | None => PyNone
  end.

Definition set_status (s : option Column.TaskStatus) (t : AgentTask)
  : AgentTask :=
  mkAgentTask (agent_id t) (session_id t) (dialogue_id t) (input_data t)
    (output_data t) s (error_reason t) (duration_ms t) (created_at t).

Definition set_output_data (o : dict) (t : AgentTask) : AgentTask :=
  mkAgentTask (agent_id t) (session_id t) (dialogue_id t) (input_data t)
    (Some o) (status t) (error_reason t) (duration_ms t) (created_at t).

Definition set_error_reason (r : string) (t : AgentTask) : AgentTask :=
  mkAgentTask (agent_id t) (session_id t) (dialogue_id t) (input_data t)
    (output_data t) (status t) (Some r) (duration_ms t) (created_at t).

Definition set_duration_ms (d : option Z) (t : AgentTask) : AgentTask :=
  mkAgentTask (agent_id t) (session_id t) (dialogue_id t) (input_data t)
    (output_data t) (status t) (error_reason t) d (created_at t).

Definition task_not_found : HTTPException :=
  mkHTTPException HTTP_404_NOT_FOUND "Task not found".

(** The exceptions of these handlers that are no [HTTPException]: the
    request ends in a 500, and [get_db] closes the session without a
    commit. *)
Inductive error : Type :=
| AttributeError
| StatementError.

(** How a handler ends: with a response, or with such an exception. *)
Inductive outcome (A : Type) : Type :=
| Responded (r : response A)
| Failed (e : error).
Arguments Responded {A} r.
Arguments Failed {A} e.

(** The bind processor of the column type: it looks the value up among
    the members of [db_schema_design.TaskStatus]; [None] is the
    [LookupError] it raises on anything else that is no string. *)
Definition bind (a : status_attr) : option (option Column.TaskStatus) :=
  match a with
  | PyNone => Some None
  | Stored s => Some (Some s)
  | Assigned _ => None
  end.

(** [db.commit(); db.refresh(task); return task], for a task object with
    the fields of [task] and the attribute [status] holding [assigned]: the
    flush binds the status, and a value the column type refuses makes the
    commit raise [StatementError], nothing being stored. *)
Definition commit (task_id : Z) (task : AgentTask) (assigned : status_attr)
  (db : gmap Z AgentTask) : gmap Z AgentTask * outcome AgentTask :=
  match bind assigned with
  | Some s =>
      let task := set_status s task in
      (<[task_id := task]> db, Responded (Returned task))
  | None => (db, Failed StatementError)
  end.

(** [start_agent_task]: 404 on a missing task; the test
    [task.status != TaskStatus.PENDING] compares what the query loaded with
    the router's [PENDING]; the detail of the 400 reads [task.status.value],
    which [None] does not have. *)
Definition start_agent_task (task_id : Z) (db : gmap Z AgentTask)
  : gmap Z AgentTask * outcome AgentTask :=
  match db !! task_id with
  | None => (db, Responded (Raised task_not_found))
  | Some task =>
      if negb (bool_decide (loaded task = Assigned PENDING)) then
        match status task with
        | Some s =>
            (db, Responded (Raised (mkHTTPException HTTP_400_BAD_REQUEST
                                      ("Task is already " ++ Column.value s))))
        | None => (db, Failed AttributeError)
        end
      else commit task_id task (Assigned IN_PROGRESS) db
  end.

(** [complete_agent_task]: the three assignments are unconditional. *)
Definition complete_agent_task (task_id : Z) (output : dict) (duration : Z)
  (db : gmap Z AgentTask) : gmap Z AgentTask * outcome AgentTask :=
  match db !! task_id with
  | None => (db, Responded (Raised task_not_found))
  | Some task =>
      let status := Assigned COMPLETED in
      let task := set_output_data output task in
      let task := set_duration_ms (Some duration) task in
      commit task_id task status db
  end.

(** Python's truth value of an [Optional[int]]: [None] and [0] are false. *)
Definition truthy (d : option Z) : bool :=
  match d with
  | None => false
  | Some n => negb (n =? 0)
  end.

(** [fail_agent_task]: the duration is assigned under [if duration_ms:]. *)
Definition fail_agent_task (task_id : Z) (reason : string)
  (duration : option Z) (db : gmap Z AgentTask)
  : gmap Z AgentTask * outcome AgentTask :=
  match db !! task_id with
  | None => (db, Responded (Raised task_not_found))
  | Some task =>
      let status := Assigned FAILED in
      let task := set_error_reason reason task in
      let task :=
        if truthy duration then set_duration_ms duration task else task in
      commit task_id task status db
  end.

(** The status a table records for a task. *)
Definition status_of (task_id : Z) (db : gmap Z AgentTask)
  : option (option Column.TaskStatus) :=
  status <$> db !! task_id.

(** A one-row table used by the worked examples. *)
Definition sample_task (s : Column.TaskStatus) : AgentTask :=
  mkAgentTask 1 1 None None None (Some s) None (Some 40) 0.

Definition sample_db (s : Column.TaskStatus) : gmap Z AgentTask :=
  {[ 7 := sample_task s ]}.

End AgentTasks.

(** ** Sessions: [routers/sessions.py] *)

Module Sessions.

(** A row of [sessions]; [session_id] is the key of the table. *)
Record Session := mkSession {
  user_id : string;
  session_token : string;
  created_at : Z;
  expires_at : Z;
  context : option dict
}.

(** [timedelta(hours=h)] in microseconds. *)
Definition timedelta_hours (h : Z) : Z := h * 3600 * 1000000.

Definition set_expires_at (e : Z) (s : Session) : Session :=
  mkSession (user_id s) (session_token s) (created_at s) e (context s).

Definition session_not_found : HTTPException :=
  mkHTTPException HTTP_404_NOT_FOUND "Session not found".

(** [db.query(Session).filter(Session.session_token == token).first()]. *)
Definition first_by_token (token : string) (db : gmap Z Session)
  : option (Z * Session) :=
  List.find (fun row => bool_decide (session_token row.2 = token))
    (map_to_list db).

(** [get_session_by_token]: 404 when no row has the token, 401 when the
    row found expired before [now]. *)
Definition get_session_by_token (token : string) (now : Z)
  (db : gmap Z Session) : response (Z * Session) :=
  match first_by_token token db with
  | None => Raised session_not_found
  | Some row =>
      if expires_at row.2 <? now then
        Raised (mkHTTPException HTTP_401_UNAUTHORIZED "Session expired")
      else Returned row
  end.

(** [refresh_session]: the expiry becomes [utcnow() + timedelta(hours=24)]. *)
Definition refresh_session (session_id : Z) (now : Z) (db : gmap Z Session)
  : gmap Z Session * response (Z * Session) :=
  match db !! session_id with
  | None => (db, Raised session_not_found)
  | Some session =>
      let session := set_expires_at (now + timedelta_hours 24) session in
      (<[session_id := session]> db, Returned (session_id, session))
  end.

(** [session_token] is declared [unique=True]. *)
Definition unique_tokens (db : gmap Z Session) : Prop :=
  forall i j si sj,
    db !! i = Some si -> db !! j = Some sj ->
    session_token si = session_token sj -> i = j.

Definition sample_session : Session :=
  mkSession "u-1" "tok-1" 0 86400000000 None.

End Sessions.

(** ** Users: [routers/users.py] *)

Module Users.

(** The members of the column type of [user_type]
    ([db_schema_design.UserType]). *)
Inductive UserType : Type := ADMIN | USER | GUEST.

(** A row of [users]; [user_id] is the key of the table. *)
Record User := mkUser {
  user_type : UserType;
  email : string;
  password_hash : string;
  username : option string;
  created_at : Z;
  updated_at : Z;
  last_active_at : option Z;
  deleted_at : option Z
}.

Definition set_deleted_at (d : option Z) (u : User) : User :=
  mkUser (user_type u) (email u) (password_hash u) (username u)
    (created_at u) (updated_at u) (last_active_at u) d.

Definition set_last_active_at (d : option Z) (u : User) : User :=
  mkUser (user_type u) (email u) (password_hash u) (username u)
    (created_at u) (updated_at u) d (deleted_at u).

Definition set_updated_at (d : Z) (u : User) : User :=
  mkUser (user_type u) (email u) (password_hash u) (username u)
    (created_at u) d (last_active_at u) (deleted_at u).

Definition user_not_found : HTTPException :=
  mkHTTPException HTTP_404_NOT_FOUND "User not found".

(** [User.deleted_at.is_(None)]. *)
Definition not_deleted (u : User) : bool :=
  match deleted_at u with
  | None => true
  | Some _ => false
  end.

(** [db.query(User).filter(User.user_id == user_id,
    User.deleted_at.is_(None)).first()]. *)
Definition first_live (user_id : string) (db : gmap string User)
  : option User :=
  match db !! user_id with
  | Some u => if not_deleted u then Some u else None
  | None => None
  end.

(** [get_users]: the rows not soft-deleted, [skip] of them dropped and at
    most [limit] returned ([OFFSET] and [LIMIT] take no negative number). *)
Definition get_users (skip limit : nat) (db : gmap string User)
  : list (string * User) :=
  take limit (drop skip
    (List.filter (fun row => not_deleted row.2) (map_to_list db))).

Definition get_user (user_id : string) (db : gmap string User)
  : response (string * User) :=
  match first_live user_id db with
  | None => Raised user_not_found
  | Some u => Returned (user_id, u)
  end.

(** [delete_user]: stamps [deleted_at] with [now]; the row stays in the
    table.  The column [updated_at] is declared
    [onupdate=datetime.utcnow], so the UPDATE stamps it as well, with the
    reading [flushed] that the flush takes. *)
Definition delete_user (user_id : string) (now flushed : Z)
  (db : gmap string User) : gmap string User * response unit :=
  match first_live user_id db with
  | None => (db, Raised user_not_found)
  | Some u =>
      let u := set_updated_at flushed (set_deleted_at (Some now) u) in
      (<[user_id := u]> db, Returned tt)
  end.

(** [activate_user]: its query is
    [db.query(User).filter(User.user_id == user_id).first()], with no
    condition on [deleted_at].  When [last_active_at] already holds [now]
    the flush finds nothing changed and sends no UPDATE; otherwise the
    UPDATE stamps [updated_at] too, with the reading [flushed]. *)
Definition activate_user (user_id : string) (now flushed : Z)
  (db : gmap string User) : gmap string User * response (string * User) :=
  match db !! user_id with
  | None => (db, Raised user_not_found)
  | Some u =>
      let u :=
        if bool_decide (last_active_at u = Some now) then u
        else set_updated_at flushed (set_last_active_at (Some now) u) in
      (<[user_id := u]> db, Returned (user_id, u))
  end.

Definition sample_user : User :=
  mkUser USER "a@example.com" "salt$hash" None 0 0 None None.

End Users.

(** ** Python strings and bytes *)

Module PyStr.

(** A [str] is the list of its code points, a [bytes] the list of its
    octets. *)
Definition pystr : Type := list Z.
Definition bytes : Type := list Z.

(** An ASCII literal as a [str]. *)
Definition lit (s : string) : pystr :=
  List.map (fun a => Z.of_N (N_of_ascii a)) (list_ascii_of_string s).

Definition len (s : pystr) : Z := Z.of_nat (length s).

(** Code points that are characters: the Unicode range without the
    surrogates. *)
Definition is_scalar (c : Z) : bool :=
  (0 <=? c) && (c <=? 1114111) && negb ((55296 <=? c) && (c <=? 57343)).

(** Text: a [str] of characters, which is what [encode('utf-8')]
    accepts. *)
Definition is_text (s : pystr) : Prop :=
  Forall (fun c => is_scalar c = true) s.

(** One code point in UTF-8; [None] is the [UnicodeEncodeError] that
    [str.encode('utf-8')] raises on a surrogate. *)
Definition encode_char (c : Z) : option bytes :=
  if negb (is_scalar c) then None
  else if c <? 128 then Some [c]
  else if c <? 2048 then
    Some [Z.lor 192 (Z.shiftr c 6); Z.lor 128 (Z.land c 63)]
  else if c <? 65536 then
    Some [Z.lor 224 (Z.shiftr c 12);
          Z.lor 128 (Z.land (Z.shiftr c 6) 63);
          Z.lor 128 (Z.land c 63)]
  else
    Some [Z.lor 240 (Z.shiftr c 18);
          Z.lor 128 (Z.land (Z.shiftr c 12) 63);
          Z.lor 128 (Z.land (Z.shiftr c 6) 63);
          Z.lor 128 (Z.land c 63)].

(** [s.encode('utf-8')]. *)
Fixpoint encode_utf8 (s : pystr) : option bytes :=
  match s with
  | [] => Some []
  | c :: rest =>
      match encode_char c, encode_utf8 rest with
      | Some b, Some bs => Some (b ++ bs)
      | _, _ => None
      end
  end.

Definition hex_digit (n : Z) : Z :=
  nth (Z.to_nat n) (lit "0123456789abcdef") 48.

(** [b.hex()]: two lowercase hexadecimal digits per octet. *)
Definition hex (b : bytes) : pystr :=
  flat_map (fun x => [hex_digit (x / 16 mod 16); hex_digit (x mod 16)]) b.

(** What the digits of [hex] are: ASCII, and not the dollar sign. *)
Definition plain (c : Z) : Prop := 0 <= c < 128 /\ c <> 36.

(** [s.split(sep)] for a separator of one character. *)
Fixpoint split (sep : Z) (s : pystr) : list pystr :=
  match s with
  | [] => [[]]
  | c :: rest =>
      if c =? sep then [] :: split sep rest
      else
        match split sep rest with
        | field :: fields => (c :: field) :: fields
        | [] => [[c]]
        end
  end.

(** [str.isspace] on one code point. *)
Definition isspace (c : Z) : bool :=
  ((9 <=? c) && (c <=? 13)) || ((28 <=? c) && (c <=? 32))
  || (c =? 133) || (c =? 160) || (c =? 5760)
  || ((8192 <=? c) && (c <=? 8202))
  || (c =? 8232) || (c =? 8233) || (c =? 8239) || (c =? 8287)
  || (c =? 12288).

Fixpoint lstrip (s : pystr) : pystr :=
  match s with
  | [] => []
  | c :: rest => if isspace c then lstrip rest else s
  end.

Definition rstrip (s : pystr) : pystr := rev (lstrip (rev s)).

(** [s.strip()]. *)
Definition strip (s : pystr) : pystr := rstrip (lstrip s).

(** ASCII case folding; [str.lower] acts like this on ASCII text. *)
Definition ascii_lower (s : pystr) : pystr :=
  List.map (fun c => if (65 <=? c) && (c <=? 90) then c + 32 else c) s.

End PyStr.

(** ** Passwords: [utils.py] *)

Module Utils.
Import PyStr.

Section Hashing.

(** [hashlib.pbkdf2_hmac(name, password, salt, iterations)]. *)
Variable pbkdf2_hmac : string -> bytes -> bytes -> Z -> bytes.

(** [hash_password], given the octets [secrets.token_hex(16)] draws (the
    salt is their hexadecimal form).  [None]: the call raises. *)
Definition hash_password (drawn : bytes) (password : pystr) : option pystr :=
  let salt := hex drawn in
  match encode_utf8 password, encode_utf8 salt with
  | Some pw, Some sl =>
      let hashed := pbkdf2_hmac "sha256" pw sl 100000 in
      Some (salt ++ lit "$" ++ hex hashed)
  | _, _ => None
  end.

(** [verify_password]: any exception inside the [try] gives [False]; the
    unpacking [salt, stored_hash = ...] raises unless [split] yields two
    fields. *)
Definition verify_password (password hashed_password : pystr) : bool :=
  match split 36 hashed_password with
  | [salt; stored_hash] =>
      match encode_utf8 password, encode_utf8 salt with
      | Some pw, Some sl =>
          let hashed := pbkdf2_hmac "sha256" pw sl 100000 in
          bool_decide (hex hashed = stored_hash)
      | _, _ => false
      end
  | _ => false
  end.

End Hashing.

(** A stand-in for the key derivation, for running the definitions. *)
Definition toy_kdf (name : string) (pw salt : bytes) (n : Z) : bytes :=
  List.map (fun b => (b + n) mod 256) (pw ++ salt).

End Utils.

(** ** Token estimators of the two news-agent drafts *)

Module Estimator.
Import PyStr.

(** Python's [float] is IEEE 754 binary64. *)
Definition prec : Z := 53.
Definition emax : Z := 1024.

(** The literals [0.5] and [2.0]. *)
Definition float_0_5 : spec_float := S754_finite false 4503599627370496 (-53).
Definition float_2_0 : spec_float := S754_finite false 4503599627370496 (-51).

(** The conversion of an [int] operand met by a [float] one: rounded to
    nearest even, [OverflowError] ([None]) beyond the finite range. *)
Definition float_of_int (n : Z) : option spec_float :=
  match binary_normalize prec emax n 0 false with
  | S754_infinity _ | S754_nan => None
  | f => Some f
  end.

(** [int(x)]: truncation toward zero; raises on an infinity or a NaN. *)
Definition int_of_float (x : spec_float) : option Z :=
  match x with
  | S754_zero _ => Some 0
  | S754_finite s m e =>
      let magnitude :=
        if 0 <=? e then Z.pos m * 2 ^ e else Z.pos m / 2 ^ (- e) in
      Some (if s then - magnitude else magnitude)
  | S754_infinity _ | S754_nan => None
  end.

(** Draft v1: [int(len(text) * 0.5)]. *)
Definition estimate_tokens_v1 (text : pystr) : option Z :=
  match float_of_int (len text) with
  | Some x => int_of_float (SFmul prec emax x float_0_5)
  | None => None
  end.

Definition KOREAN_CHAR_TO_TOKEN_RATIO : spec_float := float_2_0.

(** Draft v2: [int(char_count / KOREAN_CHAR_TO_TOKEN_RATIO)]. *)
Definition estimate_tokens_v2 (text : pystr) : option Z :=
  let char_count := len text in
  match float_of_int char_count with
  | Some x => int_of_float (SFdiv prec emax x KOREAN_CHAR_TO_TOKEN_RATIO)
  | None => None
  end.

(** A mantissa of full width: 53 bits. *)
Definition normal_mantissa (q : Z) : Prop := 2 ^ 52 <= q < 2 ^ 53.

(** The second half of [binary_round_aux]: the rounded mantissa is
    renormalised and its exponent checked against the range. *)
Definition finish (s : bool) (m e : Z) : spec_float :=
  let '(mrs, e') := shr_fexp prec emax m e loc_Exact in
  match shr_m mrs with
  | Z0 => S754_zero s
  | Zpos m => if e' <=? emax - prec then S754_finite s m e' else S754_infinity s
  | Zneg _ => S754_nan
  end.

(** What the conversion of a positive [int] can be: a normal number whose
    exponent is at least [-52], or, when the exponent could reach [top]
    and that is beyond the largest one, an infinity. *)
Definition converted (top : Z) (x : spec_float) : Prop :=
  (971 < top /\ exists s, x = S754_infinity s)
  \/ (exists m e, x = S754_finite false m e
                  /\ normal_mantissa (Z.pos m) /\ -52 <= e <= 971).

End Estimator.

(** ** URL normalisation of the two news-agent drafts *)

Module NormalizeUrl.
Import PyStr.

Definition newline : Z := 10.
Definition question_mark : Z := 63.
Definition hash_sign : Z := 35.

(** Whether [.*$] matches at the head of [rest], and what the match leaves:
    [.] takes no newline, and [$] holds at the end of the string or before
    a newline that ends it. *)
Fixpoint dot_star_dollar (rest : pystr) : option pystr :=
  match rest with
  | [] => Some []
  | c :: tail =>
      if c =? newline then
        match tail with
        | [] => Some [newline]
        | _ :: _ => None
        end
      else dot_star_dollar tail
  end.

(** [re.sub(pattern, '', s)] for a pattern [X.*$] whose first item [X]
    matches the one character [opens] accepts: the leftmost match is
    removed, and nothing after it can match again. *)
Fixpoint re_sub_tail (opens : Z -> bool) (s : pystr) : pystr :=
  match s with
  | [] => []
  | c :: rest =>
      if opens c then
        match dot_star_dollar rest with
        | Some remainder => remainder
        | None => c :: re_sub_tail opens rest
        end
      else c :: re_sub_tail opens rest
  end.

(** Draft v1: [strip], then [re.sub(r'[?#].*$', '', url)]. *)
Definition normalize_url_v1 (url : pystr) : pystr :=
  let url := strip url in
  re_sub_tail (fun c => (c =? question_mark) || (c =? hash_sign)) url.

Section Lower.

(** [str.lower]. *)
Variable lower : pystr -> pystr.

(** Draft v2: [lower().strip()], then [re.sub(r'\?.*$', '', url)], then
    [re.sub(r'#.*$', '', url)]. *)
Definition normalize_url_v2 (url : pystr) : pystr :=
  let url := strip (lower url) in
  let url := re_sub_tail (fun c => c =? question_mark) url in
  re_sub_tail (fun c => c =? hash_sign) url.

End Lower.

(** The character [c] occurs in [s]. *)
Definition contains (c : Z) (s : pystr) : bool :=
  existsb (fun x => x =? c) s.

(** The part of [s] before the first character [opens] accepts. *)
Fixpoint before_first (opens : Z -> bool) (s : pystr) : pystr :=
  match s with
  | [] => []
  | c :: rest => if opens c then [] else c :: before_first opens rest
  end.

Definition query_or_fragment (c : Z) : bool :=
  (c =? question_mark) || (c =? hash_sign).

End NormalizeUrl.

(** ** SimHash deduplication of draft v2 *)

Module SimHash.
Import PyStr NormalizeUrl.

(** [hamming_distance]: the [while xor:] loop, run for at most [fuel]
    tests of its condition; [None] when they do not suffice. *)
Fixpoint hamming_loop (fuel : nat) (xor distance : Z) : option Z :=
  match fuel with
  | O => None
  | S fuel =>
      if xor =? 0 then Some distance
      else hamming_loop fuel (Z.land xor (xor - 1)) (distance + 1)
  end.

Definition hamming_distance (fuel : nat) (hash1 hash2 : Z) : option Z :=
  hamming_loop fuel (Z.lxor hash1 hash2) 0.

(** The number of positions below [bit_length] at which two integers
    differ. *)
Definition differing_bits (bit_length : nat) (h1 h2 : Z) : Z :=
  Z.of_nat (length (List.filter
    (fun i => xorb (Z.testbit h1 (Z.of_nat i)) (Z.testbit h2 (Z.of_nat i)))
    (seq 0 bit_length))).

(** The number of ones in the binary writing of a positive number, and
    of a non-negative integer. *)
Fixpoint pos_popcount (p : positive) : nat :=
  match p with
  | xH => 1
  | xO q => pos_popcount q
  | xI q => S (pos_popcount q)
  end.

Definition popcount (z : Z) : nat :=
  match z with
  | Zpos p => pos_popcount p
  | _ => 0
  end.

(** The number of ones among the [n] lowest bits. *)
Definition count_bits (n : nat) (x : Z) : nat :=
  length (List.filter (fun i => Z.testbit x (Z.of_nat i)) (seq 0 n)).

(** One token's pass over [hash_vec]: entry [i] goes up when bit [i] of
    the token's hash is set, down otherwise. *)
Fixpoint vote (h : Z) (i : Z) (hash_vec : list Z) : list Z :=
  match hash_vec with
  | [] => []
  | v :: rest =>
      (if negb (Z.land h (Z.shiftl 1 i) =? 0) then v + 1 else v - 1)
      :: vote h (i + 1) rest
  end.

(** The second loop: bit [i] is set when entry [i] is positive. *)
Fixpoint set_bits (i : Z) (hash_vec : list Z) (fingerprint : Z) : Z :=
  match hash_vec with
  | [] => fingerprint
  | v :: rest =>
      set_bits (i + 1) rest
        (if 0 <? v then Z.lor fingerprint (Z.shiftl 1 i) else fingerprint)
  end.

(** A fetched article (the dictionaries of [fetch_rss_articles]); the
    pipeline adds the key [simhash]. *)
Record Article := mkArticle {
  source : pystr;
  url : pystr;
  title : pystr;
  published_at : Z;
  raw_content : pystr;
  simhash : option Z
}.

Definition set_url (u : pystr) (a : Article) : Article :=
  mkArticle (source a) u (title a) (published_at a) (raw_content a)
    (simhash a).

Definition set_simhash (h : Z) (a : Article) : Article :=
  mkArticle (source a) (url a) (title a) (published_at a) (raw_content a)
    (Some h).

(** The inner [for seen_hash in seen_hashes] loop with its [break]. *)
Fixpoint is_duplicate (fuel : nat) (h : Z) (seen_hashes : list Z)
  : option bool :=
  match seen_hashes with
  | [] => Some false
  | seen_hash :: rest =>
      match hamming_distance fuel h seen_hash with
      | None => None
      | Some d => if d <? 3 then Some true else is_duplicate fuel h rest
      end
  end.

Section Pipeline.

(** [str.lower], [re.findall(r'\w+', s)], and
    [int(hashlib.md5(token.encode()).hexdigest(), 16)]. *)
Variable lower : pystr -> pystr.
Variable findall_words : pystr -> list pystr.
Variable md5_int : pystr -> Z.

Definition calculate_simhash (text : pystr) (bit_length : nat) : Z :=
  let tokens := findall_words (lower text) in
  let hash_vec :=
    fold_left (fun vec token => vote (md5_int token) 0 vec) tokens
      (repeat 0 bit_length) in
  set_bits 0 hash_vec 0.

(** The fingerprint the pipeline computes for an article. *)
Definition fingerprint (a : Article) : Z :=
  calculate_simhash (title a ++ raw_content a) 64.

(** The article as the loop body leaves it. *)
Definition normalized (a : Article) : Article :=
  set_simhash (fingerprint a)
    (set_url (normalize_url_v2 lower (url a)) a).

(** One turn of the loop of step 2 of [batch_process_pipeline] over
    [(seen_hashes, normalized_articles)]. *)
Definition dedup_step (fuel : nat) (st : gset Z * list Article)
  (article : Article) : option (gset Z * list Article) :=
  let article := set_url (normalize_url_v2 lower (url article)) article in
  let h := calculate_simhash (title article ++ raw_content article) 64 in
  let article := set_simhash h article in
  match is_duplicate fuel h (elements st.1) with
  | None => None
  | Some true => Some st
  | Some false => Some ({[h]} ∪ st.1, st.2 ++ [article])
  end.

Fixpoint dedup_from (fuel : nat) (st : gset Z * list Article)
  (raw_articles : list Article) : option (gset Z * list Article) :=
  match raw_articles with
  | [] => Some st
  | article :: rest =>
      match dedup_step fuel st article with
      | None => None
      | Some st => dedup_from fuel st rest
      end
  end.

(** Step 2 of the pipeline, from the empty [seen_hashes] and
    [normalized_articles]. *)
Definition dedup (fuel : nat) (raw_articles : list Article)
  : option (gset Z * list Article) :=
  dedup_from fuel (∅, []) raw_articles.

(** The rule as the specification words it: far enough from every
    article kept so far. *)
Definition far_from_all (kept : list Article) (a : Article) : bool :=
  forallb (fun k => 3 <=? differing_bits 64 (fingerprint a) (fingerprint k))
    kept.

(** The invariant of the loop: [seen_hashes] holds the fingerprints of
    [normalized_articles]. *)
Definition in_step (st : gset Z * list Article) : Prop :=
  st.1 = list_to_set (List.map fingerprint st.2).

End Pipeline.

(** Stand-ins for running the pipeline: one token per text, hashed to its
    length. *)
Definition one_token (s : pystr) : list pystr := [s].

Definition length_hash (s : pystr) : Z := len s.

Definition sample_article (t : string) : Article :=
  mkArticle (lit "feed") (lit "https://example.com/A?x=1") (lit t) 0
    (lit " body") None.

End SimHash.

(** ** The news router: [api_test.py] *)

Module NewsRouter.

Inductive http_method : Type := GET | POST | PUT | DELETE.

#[global] Instance http_method_eq_dec : EqDecision http_method.
Proof. solve_decision. Defined.

(** The functions of the module that carry a [@router....] decorator. *)
Inductive endpoint : Type :=
| create_news
| get_news_list
| get_news
| get_news_with_interactions
| update_news
| delete_news
| create_interaction
| get_user_interactions
| get_trending_news.

#[global] Instance endpoint_eq_dec : EqDecision endpoint.
Proof. solve_decision. Defined.

Record route := mkRoute {
  route_method : http_method;
  route_path : string;
  route_endpoint : endpoint
}.

(** The operation table the decorators build, in the order of the file. *)
Definition router : list route :=
  [ mkRoute POST "/" create_news;
    mkRoute GET "/" get_news_list;
    mkRoute GET "/{news_id}" get_news;
    mkRoute GET "/{news_id}/with-interactions" get_news_with_interactions;
    mkRoute PUT "/{news_id}" update_news;
    mkRoute DELETE "/{news_id}" delete_news;
    mkRoute POST "/{news_id}/interactions" create_interaction;
    mkRoute GET "/user/{user_id}/interactions" get_user_interactions;
    mkRoute GET "/trending/" get_trending_news ].

(** A path cut at its slashes. *)
Fixpoint segments (s : string) : list string :=
  match s with
  | EmptyString => [EmptyString]
  | String c rest =>
      if Ascii.eqb c "/" then EmptyString :: segments rest
      else
        match segments rest with
        | seg :: segs => String c seg :: segs
        | [] => [String c EmptyString]
        end
  end.

(** A template segment [{name}] stands for one non-empty segment; any other
    stands for itself. *)
Definition segment_matches (template seg : string) : bool :=
  match template with
  | String "{" _ => negb (String.eqb seg EmptyString)
  | _ => String.eqb template seg
  end.

Fixpoint segments_match (template path : list string) : bool :=
  match template, path with
  | [], [] => true
  | t :: ts, p :: ps => segment_matches t p && segments_match ts ps
  | _, _ => false
  end.

Definition route_matches (m : http_method) (path : string) (r : route)
  : bool :=
  bool_decide (route_method r = m)
  && segments_match (segments (route_path r)) (segments path).

(** The first route of the table that takes the request. *)
Definition dispatch (m : http_method) (path : string) : option endpoint :=
  route_endpoint <$> List.find (route_matches m path) router.

(** What a call of a handler comes to: the list it returns, [None] when
    it returns nothing, or the exception it raises. *)
Inductive outcome (A : Type) : Type :=
| Returns (v : option A)
| Raises (exc : string).
Arguments Returns {A} v.
Arguments Raises {A} exc.

(** [timedelta(hours=h)] in microseconds; its days may not exceed
    999999999 in magnitude ([None]: [OverflowError]). *)
Definition timedelta_of_hours (h : Z) : option Z :=
  if (-999999999 <=? h / 24) && (h / 24 <=? 999999999)
  then Some (h * 3600 * 1000000) else None.

(** A [datetime] counts microseconds from the start of year 1; its
    range ends with year 9999. *)
Definition datetime_max : Z := 3652059 * 86400 * 1000000 - 1.

(** [t - delta] on a [datetime] ([None]: [OverflowError]). *)
Definition datetime_minus (t delta : Z) : option Z :=
  if (0 <=? t - delta) && (t - delta <=? datetime_max)
  then Some (t - delta) else None.

Section Trending.

(** The rows a news listing is made of, and whether the ORM's query object
    has an attribute of a given name. *)
Variable news_row : Type.
Variable query_has_attribute : string -> bool.

(** [get_trending_news]: after [time_threshold], the body ends with the
    assignment [trending = db.query(...).join(...).filter(...).group];
    there is no [return]. *)
Definition get_trending_news_body (limit hours : Z) (now : Z)
  : outcome (list news_row) :=
  match timedelta_of_hours hours with
  | None => Raises "OverflowError"
  | Some delta =>
      match datetime_minus now delta with
      | None => Raises "OverflowError"
      | Some time_threshold =>
          if query_has_attribute "group" then Returns None
          else Raises "AttributeError"
      end
  end.

End Trending.

End NewsRouter.

(** ** More on strings *)

Module PyStrOps.
Import PyStr.

(** [s.count(c)] for one character. *)
Definition count (c : Z) (s : pystr) : nat :=
  length (List.filter (fun x => x =? c) s).

(** Octets: what [bytes] holds. *)
Definition octets (b : bytes) : Prop := Forall (fun x => 0 <= x < 256) b.

(** Sixteen octets, for running [hash_password]. *)
Definition sample_draw (first : Z) : bytes := first :: repeat 7 15.

End PyStrOps.

(** ** More on fingerprints and on the store of draft v2 *)

Module SimHashOps.
Import PyStr SimHash.

(** How many of the tokens have bit [i] of their hash set. *)
Definition votes_for (md5_int : pystr -> Z) (tokens : list pystr) (i : Z)
  : nat :=
  length (List.filter (fun token => Z.testbit (md5_int token) i) tokens).

(** Two fingerprints the pipeline takes for the same article. *)
Definition near (h1 h2 : Z) : Prop := differing_bits 64 h1 h2 < 3.

Definition far (h1 h2 : Z) : Prop := 3 <= differing_bits 64 h1 h2.

Section Kept.

Variable lower : pystr -> pystr.
Variable findall_words : pystr -> list pystr.
Variable md5_int : pystr -> Z.

(** Kept apart: any two articles of the list, in the order of the list,
    have fingerprints 3 or more positions apart. *)
Definition apart (kept : list Article) : Prop :=
  ForallOrdPairs
    (fun x y => far (fingerprint lower findall_words md5_int x)
                    (fingerprint lower findall_words md5_int y)) kept.

(** Covered: the article is closer than 3 to one of the list. *)
Definition covered (kept : list Article) (a : Article) : Prop :=
  Exists
    (fun k => near (fingerprint lower findall_words md5_int a)
                   (fingerprint lower findall_words md5_int k)) kept.

End Kept.

Definition sample_batch : list Article :=
  [sample_article "first"; sample_article "a second one";
   sample_article "firsT"].

End SimHashOps.

(** ** The store of draft v2: [upsert_articles_to_db] *)

Module ArticleStore.
Import PyStr.

Section Store.

(** The dictionaries handed to the store; the function reads their key
    ['url'] and nothing else. *)
Variable record : Type.
Variable url : record -> pystr.

(** The body of the loop over [(db_articles, inserted)]. *)
Definition upsert_step (st : list record * Z) (article : record)
  : list record * Z :=
  let existing :=
    List.find (fun a => bool_decide (url a = url article)) st.1 in
  match existing with
  | Some _ => st
  | None => (st.1 ++ [article], st.2 + 1)
  end.

(** [session_state] holds the key [db_articles] or not yet ([None]); the
    result is the list it holds afterwards and the returned count. *)
Definition upsert_articles_to_db (articles : list record)
  (db_articles : option (list record)) : list record * Z :=
  let db_articles :=
    match db_articles with
    | Some rows => rows
    | None => []
    end in
  fold_left upsert_step articles (db_articles, 0).

(** The URLs a list of records holds. *)
Definition urls (rows : list record) : list pystr := List.map url rows.

End Store.

End ArticleStore.

(** ** Draft v1 of the news agent: [st_news_agent_draft_v1.py] *)

Module DraftV1.
Import PyStr.

(** An article as [fetch_rss_articles] builds it; [deduplicate_articles]
    adds the key [simhash] to the ones it keeps. *)
Record RssArticle := mkRssArticle {
  source : pystr;
  url : pystr;
  title : pystr;
  published_at : pystr;
  content : pystr;
  simhash : option pystr
}.

Definition set_simhash (h : pystr) (a : RssArticle) : RssArticle :=
  mkRssArticle (source a) (url a) (title a) (published_at a) (content a)
    (Some h).

Section Hashes.

(** [hashlib.md5(b).hexdigest()]. *)
Variable md5_hexdigest : bytes -> pystr.

(** [generate_simhash]: the first 16 characters of the digest; [None] when
    [encode] raises. *)
Definition generate_simhash (text : pystr) : option pystr :=
  match encode_utf8 text with
  | Some b => Some (take 16 (md5_hexdigest b))
  | None => None
  end.

(** The loop of [deduplicate_articles] over
    [(unique_articles, seen_hashes)]. *)
Fixpoint deduplicate_loop (articles : list RssArticle)
  (unique_articles : list RssArticle) (seen_hashes : gset pystr)
  : option (list RssArticle) :=
  match articles with
  | [] => Some unique_articles
  | article :: rest =>
      match generate_simhash (title article ++ url article) with
      | None => None
      | Some article_hash =>
          if bool_decide (article_hash ∉ seen_hashes) then
            deduplicate_loop rest
              (unique_articles ++ [set_simhash article_hash article])
              ({[article_hash]} ∪ seen_hashes)
          else deduplicate_loop rest unique_articles seen_hashes
      end
  end.

Definition deduplicate_articles (articles : list RssArticle)
  (existing_hashes : gset pystr) : option (list RssArticle) :=
  deduplicate_loop articles [] existing_hashes.

(** The hash of an article: that of its title followed by its URL. *)
Definition hash_of (a : RssArticle) : option pystr :=
  generate_simhash (title a ++ url a).

(** The article with the hash [deduplicate_articles] would give it. *)
Definition stamped (a : RssArticle) : option RssArticle :=
  match generate_simhash (title a ++ url a) with
  | Some h => Some (set_simhash h a)
  | None => None
  end.

(** The hashes that kept articles carry. *)
Definition hashes (kept : list RssArticle) : list pystr :=
  omap simhash kept.

End Hashes.

(** [re.sub(r'<[^>]+>', ' ', s)]: at a [<] followed by a character other
    than [>] and, later, by a [>], everything up to the first such [>] is
    replaced by one space; [inside] tells that the scan is within such a
    match. *)
Fixpoint sub_tags (inside : bool) (s : pystr) : pystr :=
  match s with
  | [] => []
  | c :: rest =>
      if inside then
        if c =? 62 then 32 :: sub_tags false rest else sub_tags true rest
      else if (c =? 60)
              && match rest with
                 | d :: _ => negb (d =? 62)
                 | [] => false
                 end
              && existsb (fun d => d =? 62) rest
      then sub_tags true rest
      else c :: sub_tags false rest
  end.

(** [re.sub(r'\s+', ' ', s)]: every run of whitespace becomes one space;
    [in_run] tells that the previous character was whitespace. *)
Fixpoint sub_spaces (in_run : bool) (s : pystr) : pystr :=
  match s with
  | [] => []
  | c :: rest =>
      if isspace c then
        if in_run then sub_spaces true rest else 32 :: sub_spaces true rest
      else c :: sub_spaces false rest
  end.

Definition extract_text_from_html (html_content : pystr) : pystr :=
  let text := sub_tags false html_content in
  let text := sub_spaces false text in
  strip text.

(** No two whitespace characters in a row. *)
Fixpoint single_spaced (s : pystr) : bool :=
  match s with
  | [] => true
  | c :: rest =>
      match rest with
      | d :: _ => negb (isspace c && isspace d)
      | [] => true
      end
      && single_spaced rest
  end.

(** Whitespace as [sub_spaces] leaves it: only spaces, and none after
    another; [prev] tells that a whitespace character came just before. *)
Fixpoint tidy (prev : bool) (s : pystr) : bool :=
  match s with
  | [] => true
  | c :: rest =>
      if isspace c then negb prev && (c =? 32) && tidy true rest
      else tidy false rest
  end.

(** No match of the tag pattern: every [<] is directly followed by [>],
    or by no [>] at all. *)
Fixpoint inert (s : pystr) : bool :=
  match s with
  | [] => true
  | c :: rest =>
      (negb (c =? 60)
       || match rest with
          | d :: _ => d =? 62
          | [] => true
          end
       || negb (existsb (fun d => d =? 62) rest))
      && inert rest
  end.

(** A stand-in for the digest, for running the definitions. *)
Definition toy_digest (b : bytes) : pystr := hex b ++ repeat 48 32.

Definition sample_entry (t : string) : RssArticle :=
  mkRssArticle (lit "feed") (lit "https://example.com/a") (lit t)
    (lit "2024-01-01") (lit "<p>text</p>") None.

Definition sample_feed : list RssArticle :=
  [sample_entry "one"; sample_entry "two"; sample_entry "one"].

End DraftV1.

(** ** More of the session router: [routers/sessions.py] *)

Module SessionOps.
Import Sessions.

(** How a handler that inserts a row ends: with the row, with an
    [HTTPException], or with the [IntegrityError] of a commit that a
    constraint of the table refuses. *)
Inductive insertion (A : Type) : Type :=
| Inserted (a : A)
| Refused (e : HTTPException)
| IntegrityError.

Arguments Inserted {A} a.
Arguments Refused {A} e.
Arguments IntegrityError {A}.

(** [ORDER BY column DESC] on a time stamp. *)
Definition newer_first {A} (stamp : A -> Z) : relation A :=
  fun a b => stamp b <= stamp a.

#[global] Instance newer_first_dec {A} (stamp : A -> Z) :
  RelDecision (newer_first stamp).
Proof. intros a b. unfold newer_first. apply _. Defined.

(** [create_session]: [session_token] is what [generate_session_token]
    drew, [now1] and [now2] are the two readings of the clock, and
    [session_id] is the key the table assigns.  The query for the user has
    no condition on [deleted_at]. *)
Definition create_session (user_id : string) (context : option dict)
  (session_token : string) (now1 now2 : Z) (session_id : Z)
  (users : gmap string Users.User) (db : gmap Z Session)
  : gmap Z Session * insertion (Z * Session) :=
  match users !! user_id with
  | None => (db, Refused Users.user_not_found)
  | Some _ =>
      let expires_at := now1 + timedelta_hours 24 in
      let db_session :=
        mkSession user_id session_token now2 expires_at context in
      if bool_decide (is_Some (first_by_token session_token db))
         || bool_decide (is_Some (db !! session_id))
      then (db, IntegrityError)
      else (<[session_id := db_session]> db,
            Inserted (session_id, db_session))
  end.

(** [get_sessions]: the sessions of a user, newest first, [skip] of them
    dropped and at most [limit] returned. *)
Definition get_sessions (user_id : string) (skip limit : nat)
  (db : gmap Z Session) : list (Z * Session) :=
  take limit (drop skip
    (merge_sort (newer_first (fun row => created_at row.2))
       (List.filter (fun row => bool_decide (Sessions.user_id row.2 = user_id))
          (map_to_list db)))).

(** [get_session]. *)
Definition get_session (session_id : Z) (db : gmap Z Session)
  : response (Z * Session) :=
  match db !! session_id with
  | None => Raised session_not_found
  | Some session => Returned (session_id, session)
  end.

End SessionOps.

(** ** More of the agent-task router: [routers/agent_tasks.py] *)

Module TaskOps.
Import AgentTasks.

Definition get_agent_task (task_id : Z) (db : gmap Z AgentTask)
  : response AgentTask :=
  match db !! task_id with
  | None => Raised task_not_found
  | Some task => Returned task
  end.

(** [delete_agent_task]: [db.delete(task)] removes the row. *)
Definition delete_agent_task (task_id : Z) (db : gmap Z AgentTask)
  : gmap Z AgentTask * response unit :=
  match db !! task_id with
  | None => (db, Raised task_not_found)
  | Some _ => (delete task_id db, Returned tt)
  end.

End TaskOps.

(** ** Dialogues: [routers/dialogues.py] *)

Module Dialogues.
Import SessionOps.

Inductive SenderType : Type := USER | ASSISTANT | SYSTEM.

(** A row of [dialogues]; [dialogue_id] is the key of the table. *)
Record Dialogue := mkDialogue {
  session_id : Z;
  sender_type : SenderType;
  content : string;
  intent : option string;
  created_at : Z
}.

(** [get_session_history]: the [limit] newest messages of the session,
    returned in reverse, the oldest of them first. *)
Definition get_session_history (session_id : Z) (limit : nat)
  (db : gmap Z Dialogue) : list (Z * Dialogue) :=
  let dialogues :=
    take limit
      (merge_sort (newer_first (fun row => created_at row.2))
         (List.filter
            (fun row => bool_decide (Dialogues.session_id row.2 = session_id))
            (map_to_list db))) in
  rev dialogues.

Definition sample_dialogue (at_ : Z) : Dialogue :=
  mkDialogue 1 USER "hello" None at_.

End Dialogues.

(** ** The news handlers: [api_test.py] *)

Module Interactions.

(** The members of the column type of [interaction_type]. *)
Inductive InteractionType : Type := CLICK | VIEW | SHARE | LIKE.

(** A row of [user_news_interactions]; [interaction_id] is the key of the
    table. *)
Record UserNewsInteraction := mkUserNewsInteraction {
  user_id : string;
  news_id : Z;
  interaction_type : InteractionType;
  created_at : Z
}.

End Interactions.

Module News.
Import SessionOps.

(** A row of [news]; [news_id] is the key of the table. *)
Record News := mkNews {
  title : string;
  url : string;
  content : option string;
  source : option string;
  published_at : option Z;
  created_at : Z;
  updated_at : Z;
  deleted_at : option Z
}.

Definition news_not_found : HTTPException :=
  mkHTTPException HTTP_404_NOT_FOUND "News not found".

(** [db.query(News).filter(News.url == url).first()]. *)
Definition first_by_url (url : string) (db : gmap Z News)
  : option (Z * News) :=
  List.find (fun row => bool_decide (News.url row.2 = url)) (map_to_list db).

(** [db.query(News).filter(News.news_id == news_id,
    News.deleted_at.is_(None)).first()]. *)
Definition first_live (news_id : Z) (db : gmap Z News) : option News :=
  match db !! news_id with
  | Some n =>
      match deleted_at n with
      | None => Some n
      | Some _ => None
      end
  | None => None
  end.

(** [create_news]: the check of the URL looks at every row, soft-deleted
    or not; [now1] and [now2] are the two readings of the clock and
    [news_id] is the key the table assigns. *)
Definition create_news (title url : string) (content source : option string)
  (published_at : option Z) (now1 now2 : Z) (news_id : Z) (db : gmap Z News)
  : gmap Z News * insertion (Z * News) :=
  match first_by_url url db with
  | Some _ =>
      (db, Refused (mkHTTPException HTTP_400_BAD_REQUEST
                      "News with this URL already exists"))
  | None =>
      let db_news :=
        mkNews title url content source published_at now1 now2 None in
      if bool_decide (is_Some (db !! news_id)) then (db, IntegrityError)
      else (<[news_id := db_news]> db, Inserted (news_id, db_news))
  end.

Definition get_news (news_id : Z) (db : gmap Z News) : response (Z * News) :=
  match first_live news_id db with
  | None => Raised news_not_found
  | Some n => Returned (news_id, n)
  end.

(** [delete_news]: [deleted_at] is stamped with [now]; the column
    [updated_at] is declared [onupdate=datetime.utcnow], so the update
    stamps it as well, with a later reading. *)
Definition delete_news (news_id : Z) (now flushed : Z) (db : gmap Z News)
  : gmap Z News * response unit :=
  match first_live news_id db with
  | None => (db, Raised news_not_found)
  | Some n =>
      let n :=
        mkNews (title n) (url n) (content n) (source n) (published_at n)
          (created_at n) flushed (Some now) in
      (<[news_id := n]> db, Returned tt)
  end.

(** Python's truth value of an [Optional[str]]. *)
Definition truthy (s : option string) : bool :=
  match s with
  | None => false
  | Some s => negb (bool_decide (s = EmptyString))
  end.

(** What [get_news_with_interactions] adds to the row. *)
Record NewsWithInteractions := mkNewsWithInteractions {
  news : Z * News;
  interaction_count : Z;
  user_interacted : bool
}.

Definition get_news_with_interactions (news_id : Z)
  (user_id : option string) (db : gmap Z News)
  (interactions : gmap Z Interactions.UserNewsInteraction)
  : response NewsWithInteractions :=
  match first_live news_id db with
  | None => Raised news_not_found
  | Some n =>
      let interaction_count :=
        Z.of_nat (length (List.filter
          (fun row => bool_decide (Interactions.news_id row.2 = news_id))
          (map_to_list interactions))) in
      let user_interacted :=
        if truthy user_id then
          let user_interaction :=
            List.find
              (fun row =>
                 bool_decide (Interactions.news_id row.2 = news_id)
                 && bool_decide (Some (Interactions.user_id row.2) = user_id))
              (map_to_list interactions) in
          bool_decide (is_Some user_interaction)
        else false in
      Returned (mkNewsWithInteractions (news_id, n) interaction_count
                  user_interacted)
  end.

(** [url] is declared [unique=True]. *)
Definition unique_urls (db : gmap Z News) : Prop :=
  forall i j ni nj,
    db !! i = Some ni -> db !! j = Some nj -> url ni = url nj -> i = j.

Definition sample_news (u : string) (deleted : option Z) : News :=
  mkNews "title" u None None None 0 0 deleted.

End News.

(** * Properties *)

(** ** Agent-task transitions *)

Module AgentTaskFacts.
Import AgentTasks.

(** What a query loads is never a member of the router's class. *)
Lemma loaded_not_assigned (task : AgentTask) (s : TaskStatus) :
  loaded task <> Assigned s.
Proof. unfold loaded. destruct (status task); discriminate. Qed.

Lemma start_stored task_id task s (db : gmap Z AgentTask) :
  db !! task_id = Some task -> status task = Some s ->
  start_agent_task task_id db
  = (db, Responded (Raised (mkHTTPException HTTP_400_BAD_REQUEST
                              ("Task is already " ++ Column.value s)))).
Proof.
  intros Hget Hst. unfold start_agent_task. rewrite Hget.
  rewrite bool_decide_eq_false_2 by apply loaded_not_assigned.
  now rewrite Hst.
Qed.

Lemma start_null task_id task (db : gmap Z AgentTask) :
  db !! task_id = Some task -> status task = None ->
  start_agent_task task_id db = (db, Failed AttributeError).
Proof.
  intros Hget Hst. unfold start_agent_task. rewrite Hget.
  rewrite bool_decide_eq_false_2 by apply loaded_not_assigned.
  now rewrite Hst.
Qed.

(** The commit of a status the handlers assign is refused. *)
Lemma commit_assigned task_id task s (db : gmap Z AgentTask) :
  commit task_id task (Assigned s) db = (db, Failed StatementError).
Proof. reflexivity. Qed.

Lemma complete_refused task_id task output duration (db : gmap Z AgentTask) :
  db !! task_id = Some task ->
  complete_agent_task task_id output duration db
  = (db, Failed StatementError).
Proof. intros Hget. unfold complete_agent_task. now rewrite Hget. Qed.

Lemma fail_refused task_id task reason duration (db : gmap Z AgentTask) :
  db !! task_id = Some task ->
  fail_agent_task task_id reason duration db = (db, Failed StatementError).
Proof. intros Hget. unfold fail_agent_task. now rewrite Hget. Qed.

(** C3.  What start does on a stored task that has a status: whatever the
    status, pending included, it raises the 400 that names it, and the
    table is as it was; [IN_PROGRESS] is never stored. *)
Theorem start_never_starts
  (db : gmap Z AgentTask) (task_id : Z) (task : AgentTask)
  (s : Column.TaskStatus) :
  db !! task_id = Some task -> status task = Some s ->
  start_agent_task task_id db
  = (db, Responded (Raised (mkHTTPException 400
       match s with
       | Column.PENDING => "Task is already pending"
       | Column.IN_PROGRESS => "Task is already in_progress"
       | Column.COMPLETED => "Task is already completed"
       | Column.FAILED => "Task is already failed"
       end)))
  /\ status_of task_id (start_agent_task task_id db).1 = Some (Some s).
Proof.
  intros Hget Hst. rewrite (start_stored _ _ _ _ Hget Hst). split.
  - now destruct s.
  - unfold status_of. cbn [fst]. now rewrite Hget, <- Hst.
Qed.

(** Start on a pending task. *)
Lemma start_never_starts_witness :
  start_agent_task 7 (sample_db Column.PENDING)
  = (sample_db Column.PENDING,
     Responded (Raised (mkHTTPException 400 "Task is already pending")))
  /\ status_of 7 (start_agent_task 7 (sample_db Column.PENDING)).1
     = Some (Some Column.PENDING).
Proof.
  apply (start_never_starts (sample_db Column.PENDING) 7
           (sample_task Column.PENDING) Column.PENDING).
  - apply lookup_singleton_eq.
  - reflexivity.
Defined.

(** C1.  A stored task whose status is terminal keeps it under start,
    complete and fail: each of them leaves the table as it was.  (The
    column has no member for cancelled, so a stored terminal status is
    completed or failed.) *)
Theorem terminal_states_absorbing
  (db : gmap Z AgentTask) (task_id : Z) (task : AgentTask)
  (s : Column.TaskStatus)
  (output : dict) (duration : Z) (reason : string) (failed_after : option Z) :
  db !! task_id = Some task -> status task = Some s ->
  s = Column.COMPLETED \/ s = Column.FAILED ->
  let started := (start_agent_task task_id db).1 in
  let completed := (complete_agent_task task_id output duration db).1 in
  let failed := (fail_agent_task task_id reason failed_after db).1 in
  status_of task_id started = Some (Some s)
  /\ status_of task_id completed = Some (Some s)
  /\ status_of task_id failed = Some (Some s)
  /\ started = db /\ completed = db /\ failed = db.
Proof.
  intros Hget Hst _ started completed failed.
  assert (Hs : status_of task_id db = Some (Some s)).
  { unfold status_of. now rewrite Hget, <- Hst. }
  unfold started, completed, failed.
  rewrite (start_stored _ _ _ _ Hget Hst), (complete_refused _ _ _ _ _ Hget),
    (fail_refused _ _ _ _ _ Hget).
  cbn [fst]. now repeat split.
Qed.

(** The three transitions on a failed task. *)
Lemma terminal_states_absorbing_witness :
  let started := (start_agent_task 7 (sample_db Column.FAILED)).1 in
  let completed :=
    (complete_agent_task 7 [] 5 (sample_db Column.FAILED)).1 in
  let failed :=
    (fail_agent_task 7 "late" (Some 3) (sample_db Column.FAILED)).1 in
  status_of 7 started = Some (Some Column.FAILED)
  /\ status_of 7 completed = Some (Some Column.FAILED)
  /\ status_of 7 failed = Some (Some Column.FAILED)
  /\ started = sample_db Column.FAILED
  /\ completed = sample_db Column.FAILED
  /\ failed = sample_db Column.FAILED.
Proof.
  apply (terminal_states_absorbing (sample_db Column.FAILED) 7
           (sample_task Column.FAILED) Column.FAILED [] 5 "late" (Some 3)).
  - apply lookup_singleton_eq.
  - reflexivity.
  - now right.
Defined.

(** C10.  What fail does on a stored task: with a duration of [0], with
    any other duration and with none, the commit raises, and the row keeps
    the status, the reason and the duration it had. *)
Theorem fail_stores_nothing
  (db : gmap Z AgentTask) (task_id : Z) (task : AgentTask) (reason : string) :
  db !! task_id = Some task ->
  fail_agent_task task_id reason (Some 0) db = (db, Failed StatementError)
  /\ (forall duration,
        fail_agent_task task_id reason duration db
        = (db, Failed StatementError)
        /\ (fail_agent_task task_id reason duration db).1 !! task_id
           = Some task).
Proof.
  intros Hget. split; [exact (fail_refused _ _ _ _ _ Hget)|].
  intros duration. rewrite (fail_refused _ _ _ _ _ Hget). now split.
Qed.

(** A pending task that took 40 ms so far, failed with and without a
    duration. *)
Lemma fail_stores_nothing_witness :
  fail_agent_task 7 "boom" (Some 0) (sample_db Column.PENDING)
  = (sample_db Column.PENDING, Failed StatementError)
  /\ (forall duration,
        fail_agent_task 7 "boom" duration (sample_db Column.PENDING)
        = (sample_db Column.PENDING, Failed StatementError)
        /\ (fail_agent_task 7 "boom" duration (sample_db Column.PENDING)).1 !! 7
           = Some (sample_task Column.PENDING)).
Proof.
  apply (fail_stores_nothing (sample_db Column.PENDING) 7
           (sample_task Column.PENDING) "boom").
  apply lookup_singleton_eq.
Defined.

End AgentTaskFacts.

(** ** Session expiry and refresh *)

Module SessionFacts.
Import Sessions.

Lemma first_by_token_found (db : gmap Z Session) (id : Z) (s : Session) :
  db !! id = Some s -> unique_tokens db ->
  first_by_token (session_token s) db = Some (id, s).
Proof.
  intros Hget Huniq. unfold first_by_token.
  destruct (List.find _ (map_to_list db)) as [[j sj]|] eqn:Hfind.
  - apply find_some in Hfind as [Hin Htok].
    apply list_elem_of_In, elem_of_map_to_list in Hin.
    apply bool_decide_eq_true in Htok. simpl in Htok.
    assert (j = id) as -> by (eapply Huniq; eauto).
    congruence.
  - exfalso.
    assert (In (id, s) (map_to_list db)) as Hin
      by now apply list_elem_of_In, elem_of_map_to_list.
    apply (find_none _ _ Hfind) in Hin.
    apply bool_decide_eq_false in Hin. now apply Hin.
Qed.

(** C4.  For a stored session (tokens being unique in the table): when
    its expiry is earlier than the current time, get-by-token on its token
    raises the 401 [Session expired]; and a refresh at time [now] stores and
    returns the session with expiry [now] plus 24 hours, whatever the
    expiry was. *)
Theorem expiry_gate_and_refresh_lease
  (db : gmap Z Session) (id : Z) (s : Session) (now : Z) :
  db !! id = Some s -> unique_tokens db ->
  (expires_at s < now ->
     get_session_by_token (session_token s) now db
     = Raised (mkHTTPException 401 "Session expired"))
  /\ (let refreshed := set_expires_at (now + 24 * 3600 * 1000000) s in
      refresh_session id now db
      = (<[id := refreshed]> db, Returned (id, refreshed))
      /\ expires_at refreshed = now + 24 * 3600 * 1000000
      /\ expires_at <$> (refresh_session id now db).1 !! id
         = Some (now + 24 * 3600 * 1000000)).
Proof.
  intros Hget Huniq. split.
  - intros Hexp. unfold get_session_by_token.
    rewrite (first_by_token_found _ _ _ Hget Huniq). simpl.
    now rewrite (proj2 (Z.ltb_lt _ _) Hexp).
  - unfold refresh_session. rewrite Hget. simpl.
    rewrite lookup_insert_eq. repeat split.
Qed.

Lemma unique_tokens_singleton (id : Z) (s : Session) :
  unique_tokens {[ id := s ]}.
Proof.
  intros i j si sj Hi Hj _.
  apply lookup_singleton_Some in Hi as [<- _].
  apply lookup_singleton_Some in Hj as [<- _]. reflexivity.
Qed.

(** A session read and refreshed one microsecond after its expiry. *)
Lemma expiry_gate_and_refresh_lease_witness :
  (expires_at sample_session < 86400000001 ->
     get_session_by_token (session_token sample_session) 86400000001
       {[ 3 := sample_session ]}
     = Raised (mkHTTPException 401 "Session expired"))
  /\ (let refreshed :=
        set_expires_at (86400000001 + 24 * 3600 * 1000000) sample_session in
      refresh_session 3 86400000001 {[ 3 := sample_session ]}
      = (<[3 := refreshed]> {[ 3 := sample_session ]}, Returned (3, refreshed))
      /\ expires_at refreshed = 86400000001 + 24 * 3600 * 1000000
      /\ expires_at
           <$> (refresh_session 3 86400000001 {[ 3 := sample_session ]}).1 !! 3
         = Some (86400000001 + 24 * 3600 * 1000000)).
Proof.
  apply (expiry_gate_and_refresh_lease
           {[ 3 := sample_session ]} 3 sample_session 86400000001).
  - apply lookup_singleton_eq.
  - apply unique_tokens_singleton.
Defined.

End SessionFacts.

(** ** Soft deletion of users *)

Module UserFacts.
Import Users.

Lemma get_users_live skip limit (db : gmap string User) row :
  row ∈ get_users skip limit db ->
  db !! row.1 = Some row.2 /\ not_deleted row.2 = true.
Proof.
  unfold get_users. intros Hin.
  apply subseteq_take, subseteq_drop in Hin.
  apply list_elem_of_In, filter_In in Hin as [Hin Hlive].
  split; [|assumption].
  apply list_elem_of_In in Hin. destruct row as [k v].
  now apply elem_of_map_to_list in Hin.
Qed.

(** C6.  When delete finds the user (stored and not yet soft-deleted) it
    answers with no content and stamps [deleted_at] (and, through
    [onupdate], [updated_at]); afterwards get-by-id raises the 404, no page
    of the listing holds a row of that id, and the row is still in the
    table: no key has left it, the row is the old one with the two stamps,
    and [activate_user], whose lookup does not test [deleted_at], still
    finds and returns it, still stamped as deleted. *)
Theorem soft_delete_exclusion
  (db : gmap string User) (user_id : string) (u : User)
  (now flushed later flushed_later : Z) :
  db !! user_id = Some u -> deleted_at u = None ->
  let deleted := set_updated_at flushed (set_deleted_at (Some now) u) in
  let db' := (delete_user user_id now flushed db).1 in
  (delete_user user_id now flushed db).2 = Returned tt
  /\ get_user user_id db' = Raised (mkHTTPException 404 "User not found")
  /\ (forall skip limit row, row ∈ get_users skip limit db' -> row.1 <> user_id)
  /\ db' !! user_id = Some deleted
  /\ dom db' = dom db
  /\ (exists row,
        (activate_user user_id later flushed_later db').2
        = Returned (user_id, row)
        /\ row = (if bool_decide (last_active_at u = Some later) then deleted
                  else set_updated_at flushed_later
                         (set_last_active_at (Some later) deleted))
        /\ deleted_at row = Some now).
Proof.
  intros Hget Hlive deleted db'.
  assert (Hfirst : first_live user_id db = Some u).
  { unfold first_live, not_deleted. now rewrite Hget, Hlive. }
  assert (Hdb' : db' = <[user_id := deleted]> db).
  { unfold db', delete_user. now rewrite Hfirst. }
  assert (Hrow : db' !! user_id = Some deleted).
  { rewrite Hdb'. apply lookup_insert_eq. }
  split; [unfold delete_user; now rewrite Hfirst|].
  split; [unfold get_user, first_live; now rewrite Hrow|].
  split; [|split; [exact Hrow|split]].
  - intros skip limit row Hin Heq.
    apply get_users_live in Hin as [Hin Hnd].
    rewrite Heq, Hrow in Hin. injection Hin as Hin.
    rewrite <- Hin in Hnd. discriminate.
  - rewrite Hdb'. apply set_eq. intros k.
    rewrite dom_insert, elem_of_union, elem_of_singleton.
    split; [intros [->|]; [|assumption]|auto].
    apply elem_of_dom. eauto.
  - unfold activate_user. rewrite Hrow. cbn [snd].
    change (last_active_at deleted) with (last_active_at u).
    eexists. split; [reflexivity|]. split; [reflexivity|].
    now destruct (bool_decide (last_active_at u = Some later)).
Qed.

(** A table of one user, deleted at time 10 and activated at time 20. *)
Lemma soft_delete_exclusion_witness :
  let deleted := set_updated_at 11 (set_deleted_at (Some 10) sample_user) in
  let db' := (delete_user "u-1" 10 11 {[ "u-1" := sample_user ]}).1 in
  (delete_user "u-1" 10 11 {[ "u-1" := sample_user ]}).2 = Returned tt
  /\ get_user "u-1" db' = Raised (mkHTTPException 404 "User not found")
  /\ (forall skip limit row, row ∈ get_users skip limit db' -> row.1 <> "u-1")
  /\ db' !! "u-1" = Some deleted
  /\ dom db' = dom ({[ "u-1" := sample_user ]} : gmap string User)
  /\ (exists row,
        (activate_user "u-1" 20 21 db').2 = Returned ("u-1", row)
        /\ row = (if bool_decide (last_active_at sample_user = Some 20)
                  then deleted
                  else set_updated_at 21
                         (set_last_active_at (Some 20) deleted))
        /\ deleted_at row = Some 10).
Proof.
  apply (soft_delete_exclusion {[ "u-1" := sample_user ]} "u-1" sample_user
           10 11 20 21).
  - apply lookup_singleton_eq.
  - reflexivity.
Defined.

End UserFacts.

(** ** The password round trip *)

Module PasswordFacts.
Import PyStr Utils.

Lemma hex_digits_plain : Forall plain (lit "0123456789abcdef").
Proof. repeat constructor; try lia; discriminate. Qed.

Lemma hex_digit_plain n : 0 <= n < 16 -> plain (hex_digit n).
Proof.
  intros Hn. unfold hex_digit.
  apply (proj1 (List.Forall_nth plain _) hex_digits_plain).
  change (length (lit "0123456789abcdef")) with 16%nat. lia.
Qed.

Lemma hex_plain (b : bytes) : Forall plain (hex b).
Proof.
  induction b as [|x b IH]; simpl; [constructor|].
  constructor; [|constructor; [|exact IH]];
    apply hex_digit_plain; apply Z.mod_pos_bound; lia.
Qed.

Lemma encode_char_plain c : plain c -> encode_char c = Some [c].
Proof.
  intros [[Hlo Hhi] _]. unfold encode_char, is_scalar.
  replace (0 <=? c) with true by (symmetry; apply Z.leb_le; lia).
  replace (c <=? 1114111) with true by (symmetry; apply Z.leb_le; lia).
  replace (55296 <=? c) with false by (symmetry; apply Z.leb_gt; lia).
  simpl.
  now replace (c <? 128) with true by (symmetry; apply Z.ltb_lt; lia).
Qed.

Lemma encode_utf8_plain (s : pystr) : Forall plain s -> encode_utf8 s = Some s.
Proof.
  induction 1 as [|c s Hc _ IH]; simpl; [reflexivity|].
  now rewrite (encode_char_plain c Hc), IH.
Qed.

Lemma encode_char_scalar c : is_scalar c = true -> is_Some (encode_char c).
Proof.
  intros Hc. unfold encode_char. rewrite Hc. simpl.
  repeat (match goal with |- context [if ?b then _ else _] => destruct b end);
    eauto.
Qed.

(** Text without surrogates always encodes. *)
Lemma encode_utf8_text (s : pystr) :
  is_text s -> is_Some (encode_utf8 s).
Proof.
  induction 1 as [|c s Hc _ [bs IH]]; simpl; [eauto|].
  destruct (encode_char_scalar c Hc) as [b ->]. rewrite IH. eauto.
Qed.

Lemma split_without_separator sep (s : pystr) :
  Forall (fun c => c <> sep) s -> split sep s = [s].
Proof.
  induction 1 as [|c s Hc _ IH]; simpl; [reflexivity|].
  destruct (Z.eqb_spec c sep); [contradiction|]. now rewrite IH.
Qed.

Lemma split_at_separator sep (a b : pystr) :
  Forall (fun c => c <> sep) a -> Forall (fun c => c <> sep) b ->
  split sep (a ++ sep :: b) = [a; b].
Proof.
  intros Ha Hb. induction Ha as [|c a Hc _ IH]; simpl.
  - rewrite Z.eqb_refl. now rewrite (split_without_separator sep b Hb).
  - destruct (Z.eqb_spec c sep); [contradiction|]. now rewrite IH.
Qed.

Lemma plain_not_dollar (s : pystr) :
  Forall plain s -> Forall (fun c => c <> 36) s.
Proof.
  induction 1 as [|c s [_ Hc] _ IH]; constructor; assumption.
Qed.

Section RoundTrip.

Variable pbkdf2_hmac : string -> bytes -> bytes -> Z -> bytes.

(** On a surrogate the encoding, and with it [hash_password], raises. *)
Lemma hash_password_surrogate drawn :
  hash_password pbkdf2_hmac drawn [55296] = None.
Proof. reflexivity. Qed.


End RoundTrip.



End PasswordFacts.

(** ** The token estimators *)

Module EstimatorFacts.
Import PyStr Estimator.

(** *** Digits *)

Lemma digits2_pos_size p : digits2_pos p = Pos.size p.
Proof. induction p as [p IH|p IH|]; simpl; now rewrite ?IH. Qed.

Lemma digits2_log2 p : Z.pos (digits2_pos p) = Z.log2 (Z.pos p) + 1.
Proof.
  rewrite digits2_pos_size.
  destruct p as [p|p|]; simpl; try reflexivity; now rewrite Pos2Z.inj_succ.
Qed.

Lemma digits2_bounds p d :
  Z.pos (digits2_pos p) = d <-> 2 ^ (d - 1) <= Z.pos p < 2 ^ d.
Proof.
  rewrite digits2_log2. split.
  - intros <-. replace (Z.log2 (Z.pos p) + 1 - 1) with (Z.log2 (Z.pos p)) by lia.
    apply Z.log2_spec. lia.
  - intros H.
    assert (0 <= d - 1).
    { destruct (Z.le_gt_cases 0 (d - 1)) as [|Hneg]; [assumption|].
      rewrite (Z.pow_neg_r 2 (d - 1)) in H by lia.
      destruct (Z.le_gt_cases 0 d).
      - replace d with 0 in H by lia. simpl in H. lia.
      - rewrite (Z.pow_neg_r 2 d) in H by lia. lia. }
    rewrite (Z.log2_unique (Z.pos p) (d - 1)); [lia|lia|].
    now replace (Z.succ (d - 1)) with d by lia.
Qed.

(** *** Shifting right *)

Lemma iter_pos_nat {A} (f : A -> A) p x :
  SpecFloat.iter_pos f p x = Nat.iter (Pos.to_nat p) f x.
Proof.
  revert x. induction p as [p IH|p IH|]; intros x; cbn [SpecFloat.iter_pos].
  - rewrite !IH, Pos2Nat.inj_xI.
    rewrite <- Nat.iter_succ_r, <- Nat.iter_add. f_equal. lia.
  - rewrite !IH, Pos2Nat.inj_xO, <- Nat.iter_add. f_equal. lia.
  - reflexivity.
Qed.

Lemma shr_1_m mrs : 0 <= shr_m mrs -> shr_m (shr_1 mrs) = shr_m mrs / 2.
Proof.
  destruct mrs as [m r s]. simpl. intros Hm.
  destruct m as [|[p|p|]|p]; simpl; try reflexivity; try lia.
  - now rewrite Pos2Z.inj_xI, Z.mul_comm, Z.div_add_l by lia.
  - now rewrite Pos2Z.inj_xO, Z.mul_comm, Z.div_mul by lia.
Qed.

Lemma shr_iter_m k : forall mrs,
  0 <= shr_m mrs -> shr_m (Nat.iter k shr_1 mrs) = shr_m mrs / 2 ^ Z.of_nat k.
Proof.
  induction k as [|k IH]; intros mrs Hm.
  - simpl. now rewrite Z.div_1_r.
  - assert (Hpow : 0 < 2 ^ Z.of_nat k) by (apply Z.pow_pos_nonneg; lia).
    rewrite Nat.iter_succ_r, IH; rewrite shr_1_m by lia.
    + rewrite Nat2Z.inj_succ, Z.pow_succ_r, Z.div_div by lia. reflexivity.
    + apply Z.div_pos; lia.
Qed.

Lemma shr_iter_exact k : forall q,
  0 <= q ->
  Nat.iter k shr_1 (Build_shr_record (q * 2 ^ Z.of_nat k) false false)
  = Build_shr_record q false false.
Proof.
  induction k as [|k IH]; intros q Hq.
  - simpl. now rewrite Z.mul_1_r.
  - rewrite Nat.iter_succ_r. rewrite <- (IH q Hq). f_equal.
    rewrite Nat2Z.inj_succ, Z.pow_succ_r by lia.
    assert (Hn : 0 <= q * 2 ^ Z.of_nat k) by (apply Z.mul_nonneg_nonneg; lia).
    replace (q * (2 * 2 ^ Z.of_nat k)) with (2 * (q * 2 ^ Z.of_nat k)) by lia.
    destruct (q * 2 ^ Z.of_nat k) as [|p|p]; [reflexivity|reflexivity|lia].
Qed.

Lemma shr_exact q k e :
  0 <= q -> 0 <= k ->
  shr (Build_shr_record (q * 2 ^ k) false false) e k
  = (Build_shr_record q false false, e + k).
Proof.
  intros Hq Hk. unfold shr. destruct k as [|p|p]; [| |lia].
  - now rewrite Z.mul_1_r, Z.add_0_r.
  - rewrite iter_pos_nat. f_equal.
    rewrite <- (positive_nat_Z p). now apply shr_iter_exact.
Qed.

Lemma Zdigits2_scaled q k :
  normal_mantissa q -> 0 <= k -> Zdigits2 (q * 2 ^ k) = 53 + k.
Proof.
  intros [Hlo Hhi] Hk.
  assert (Hpow : 0 < 2 ^ k) by (apply Z.pow_pos_nonneg; lia).
  assert (Hpos : 0 < q * 2 ^ k) by (apply Z.mul_pos_pos; lia).
  destruct (q * 2 ^ k) as [|p|p] eqn:Hp; [lia| |lia].
  unfold Zdigits2. apply digits2_bounds. rewrite <- Hp.
  replace (53 + k - 1) with (52 + k) by lia.
  rewrite !Z.pow_add_r by lia. split.
  - apply Z.mul_le_mono_nonneg_r; lia.
  - apply Z.mul_lt_mono_pos_r; lia.
Qed.

(** A mantissa of 53 bits times a power of two rounds to itself. *)
Lemma binary_round_aux_exact s q k e :
  normal_mantissa q -> 0 <= k -> -1074 <= e + k <= 971 ->
  binary_round_aux prec emax s (q * 2 ^ k) e loc_Exact
  = S754_finite s (Z.to_pos q) (e + k).
Proof.
  intros Hq Hk He. unfold binary_round_aux, shr_fexp.
  rewrite (Zdigits2_scaled q k Hq Hk).
  assert (Hfexp : forall x, -1074 <= x -> fexp prec emax (53 + x) = x).
  { intros x Hx. unfold fexp, emin, prec, emax. lia. }
  replace (53 + k + e) with (53 + (e + k)) by lia.
  rewrite Hfexp by lia.
  replace (e + k - e) with k by lia.
  cbn [shr_record_of_loc].
  rewrite shr_exact by (unfold normal_mantissa in Hq; lia).
  cbn [shr_m loc_of_shr_record round_nearest_even].
  assert (Hd0 : Zdigits2 q = 53).
  { pose proof (Zdigits2_scaled q 0 Hq ltac:(lia)) as H.
    now rewrite Z.pow_0_r, Z.mul_1_r, Z.add_0_r in H. }
  rewrite Hd0, Hfexp by lia. rewrite Z.sub_diag. cbn [shr shr_m].
  destruct Hq as [Hlo Hhi]. destruct q as [|p|p]; [simpl in Hlo; lia| |lia].
  replace (e + k <=? emax - prec) with true
    by (symmetry; apply Z.leb_le; unfold emax, prec; lia).
  reflexivity.
Qed.

(** *** Multiplying by [0.5] and dividing by [2.0] *)

Lemma SFmul_half s m e :
  normal_mantissa (Z.pos m) -> -1073 <= e <= 972 ->
  SFmul prec emax (S754_finite s m e) float_0_5 = S754_finite s m (e - 1).
Proof.
  intros Hm He. unfold SFmul, float_0_5.
  rewrite xorb_false_r, Pos2Z.inj_mul.
  change (Z.pos 4503599627370496) with (2 ^ 52).
  rewrite (binary_round_aux_exact s (Z.pos m) 52 (e + -53)) by (try assumption; lia).
  f_equal. lia.
Qed.

Lemma div_eucl_pair a b : Z.div_eucl a b = (a / b, a mod b).
Proof. unfold Z.div, Z.modulo. now destruct (Z.div_eucl a b). Qed.

Lemma SFdiv_core_by_two m e :
  normal_mantissa (Z.pos m) -> -1072 <= e ->
  SFdiv_core_binary prec emax (Z.pos m) e (Z.pos 4503599627370496) (-51)
  = (Z.pos m * 2 ^ 1, e - 2, loc_Exact).
Proof.
  intros Hm He. unfold SFdiv_core_binary.
  assert (Hd : Zdigits2 (Z.pos m) = 53).
  { pose proof (Zdigits2_scaled (Z.pos m) 0 Hm ltac:(lia)) as H.
    now rewrite Z.pow_0_r, Z.mul_1_r, Z.add_0_r in H. }
  rewrite Hd. change (Zdigits2 (Z.pos 4503599627370496)) with 53.
  assert (He' : Z.min (fexp prec emax (53 + e - (53 + -51))) (e - -51) = e - 2).
  { unfold fexp, emin, prec, emax. lia. }
  rewrite He'. replace (e - -51 - (e - 2)) with 53 by lia.
  cbv zeta. cbv iota.
  rewrite Z.shiftl_mul_pow2 by lia.
  rewrite div_eucl_pair.
  change (Z.pos 4503599627370496) with (2 ^ 52).
  replace (Z.pos m * 2 ^ 53) with (Z.pos m * 2 ^ 1 * 2 ^ 52) by lia.
  rewrite Z.div_mul, Z.mod_mul by lia. reflexivity.
Qed.

Lemma SFdiv_two s m e :
  normal_mantissa (Z.pos m) -> -1072 <= e <= 972 ->
  SFdiv prec emax (S754_finite s m e) float_2_0 = S754_finite s m (e - 1).
Proof.
  intros Hm He. unfold SFdiv, float_2_0.
  rewrite (SFdiv_core_by_two m e Hm) by lia.
  rewrite xorb_false_r.
  rewrite (binary_round_aux_exact s (Z.pos m) 1 (e - 2)) by (try assumption; lia).
  f_equal. lia.
Qed.

(** *** Converting an [int] *)

Lemma iter_xO_pow n k : Z.pos (Pos.iter xO n k) = Z.pos n * 2 ^ Z.pos k.
Proof.
  rewrite Pos2Nat.inj_iter, <- (positive_nat_Z k).
  induction (Pos.to_nat k) as [|j IH].
  - simpl. lia.
  - rewrite Nat2Z.inj_succ, Z.pow_succ_r by lia.
    cbn [nat_rect]. rewrite Pos2Z.inj_xO, IH. lia.
Qed.

Lemma binary_round_aux_finish s mx ex lx :
  binary_round_aux prec emax s mx ex lx
  = finish s
      (round_nearest_even (shr_m (shr_fexp prec emax mx ex lx).1)
         (loc_of_shr_record (shr_fexp prec emax mx ex lx).1))
      (shr_fexp prec emax mx ex lx).2.
Proof.
  unfold binary_round_aux, finish.
  now destruct (shr_fexp prec emax mx ex lx) as [mrs e].
Qed.

Lemma converted_mono top top' x :
  top <= top' -> converted top x -> converted top' x.
Proof. intros Hle [[Htop Hinf]|Hfin]; [left; split; [lia|exact Hinf]|now right]. Qed.

Lemma finish_normal q e :
  normal_mantissa q -> -52 <= e -> converted e (finish false q e).
Proof.
  intros Hq He. unfold finish, shr_fexp.
  assert (Hd0 : Zdigits2 q = 53).
  { pose proof (Zdigits2_scaled q 0 Hq ltac:(lia)) as H.
    now rewrite Z.pow_0_r, Z.mul_1_r, Z.add_0_r in H. }
  rewrite Hd0.
  replace (fexp prec emax (53 + e) - e) with 0
    by (unfold fexp, emin, prec, emax; lia).
  cbn [shr shr_record_of_loc shr_m].
  destruct Hq as [Hlo Hhi]. destruct q as [|p|p]; [simpl in Hlo; lia| |lia].
  destruct (Z.leb_spec e (emax - prec)) as [Hle|Hgt].
  - right. exists p, e. unfold emax, prec in Hle.
    split; [reflexivity|]. split; [split; assumption|lia].
  - left. unfold emax, prec in Hgt. split; [lia|now exists false].
Qed.

Lemma finish_carry e :
  -52 <= e -> converted (e + 1) (finish false (2 ^ 53) e).
Proof.
  intros He. unfold finish, shr_fexp.
  change (Zdigits2 (2 ^ 53)) with 54.
  replace (fexp prec emax (54 + e) - e) with 1
    by (unfold fexp, emin, prec, emax; lia).
  cbn [shr_record_of_loc].
  change (2 ^ 53) with (2 ^ 52 * 2 ^ 1).
  rewrite shr_exact by lia. cbn [shr_m].
  change (2 ^ 52) with (Z.pos 4503599627370496).
  destruct (Z.leb_spec (e + 1) (emax - prec)) as [Hle|Hgt].
  - right. exists 4503599627370496%positive, (e + 1). unfold emax, prec in Hle.
    split; [reflexivity|]. split; [unfold normal_mantissa|]; lia.
  - left. unfold emax, prec in Hgt. split; [lia|now exists false].
Qed.

Lemma round_nearest_even_step m l :
  round_nearest_even m l = m \/ round_nearest_even m l = m + 1.
Proof.
  destruct l as [|[| |]]; simpl; auto. destruct (Z.even m); auto.
Qed.

Lemma binary_normalize_small n :
  0 < n < 2 ^ 53 ->
  binary_normalize prec emax n 0 false
  = S754_finite false (Z.to_pos (n * 2 ^ (52 - Z.log2 n))) (Z.log2 n - 52)
  /\ normal_mantissa (n * 2 ^ (52 - Z.log2 n))
  /\ 0 <= Z.log2 n <= 52.
Proof.
  intros [Hpos Hlt].
  pose proof (Z.log2_spec n Hpos) as [Hlo Hhi].
  pose proof (Z.log2_nonneg n) as HL0.
  assert (HL : Z.log2 n <= 52).
  { apply Z.lt_succ_r. apply Z.log2_lt_pow2; [exact Hpos|exact Hlt]. }
  assert (Hnorm : normal_mantissa (n * 2 ^ (52 - Z.log2 n))).
  { unfold normal_mantissa.
    assert (Hp : 0 < 2 ^ (52 - Z.log2 n)) by (apply Z.pow_pos_nonneg; lia).
    replace (2 ^ 52) with (2 ^ Z.log2 n * 2 ^ (52 - Z.log2 n))
      by (rewrite <- Z.pow_add_r by lia; f_equal; lia).
    replace (2 ^ 53) with (2 ^ Z.succ (Z.log2 n) * 2 ^ (52 - Z.log2 n))
      by (rewrite <- Z.pow_add_r by lia; f_equal; lia).
    split; [apply Z.mul_le_mono_nonneg_r|apply Z.mul_lt_mono_pos_r]; lia. }
  split; [|split; [exact Hnorm|lia]].
  destruct n as [|p|p]; [lia| |lia].
  unfold binary_normalize, binary_round.
  rewrite digits2_log2.
  replace (fexp prec emax (Z.log2 (Z.pos p) + 1 + 0))
    with (Z.log2 (Z.pos p) - 52) by (unfold fexp, emin, prec, emax; lia).
  unfold shl_align.
  destruct (Z.log2 (Z.pos p) - 52 - 0) as [|k|k] eqn:Hk; [| lia |].
  - replace (Z.log2 (Z.pos p)) with 52 in * by lia.
    change (2 ^ (52 - 52)) with 1 in *. rewrite Z.mul_1_r in *.
    rewrite <- (Z.mul_1_r (Z.pos p)) at 1. change 1 with (2 ^ 0) at 1.
    rewrite binary_round_aux_exact by (try assumption; lia). reflexivity.
  - assert (Hk' : Z.pos k = 52 - Z.log2 (Z.pos p)) by lia.
    rewrite iter_xO_pow, Hk'.
    rewrite <- (Z.mul_1_r (Z.pos p * 2 ^ (52 - Z.log2 (Z.pos p)))) at 1.
    change 1 with (2 ^ 0) at 1.
    rewrite binary_round_aux_exact by (try assumption; lia).
    f_equal. lia.
Qed.

Lemma binary_normalize_large n :
  2 ^ 53 <= n ->
  converted (Z.log2 n - 51) (binary_normalize prec emax n 0 false).
Proof.
  intros Hn. assert (Hpos : 0 < n) by lia.
  pose proof (Z.log2_spec n Hpos) as [Hlo Hhi].
  assert (HL : 53 <= Z.log2 n) by (apply Z.log2_le_pow2; lia).
  destruct n as [|p|p]; [lia| |lia].
  unfold binary_normalize, binary_round. rewrite digits2_log2.
  replace (fexp prec emax (Z.log2 (Z.pos p) + 1 + 0))
    with (Z.log2 (Z.pos p) - 52) by (unfold fexp, emin, prec, emax; lia).
  unfold shl_align.
  destruct (Z.log2 (Z.pos p) - 52 - 0) as [|k|k] eqn:Hk; [lia| |lia].
  rewrite binary_round_aux_finish. unfold shr_fexp.
  cbn [Zdigits2 shr_record_of_loc]. rewrite digits2_log2.
  replace (fexp prec emax (Z.log2 (Z.pos p) + 1 + 0) - 0)
    with (Z.pos k) by (unfold fexp, emin, prec, emax; lia).
  cbn [shr fst snd]. rewrite iter_pos_nat.
  set (mrs := Nat.iter (Pos.to_nat k) shr_1 _).
  assert (Hm1 : shr_m mrs = Z.pos p / 2 ^ Z.pos k).
  { unfold mrs. rewrite shr_iter_m by (simpl; lia).
    now rewrite positive_nat_Z. }
  assert (Hpk : 0 < 2 ^ Z.pos k) by (apply Z.pow_pos_nonneg; lia).
  assert (Hnorm : normal_mantissa (shr_m mrs)).
  { rewrite Hm1. unfold normal_mantissa. split.
    - apply Z.div_le_lower_bound; [lia|].
      rewrite <- Z.pow_add_r by lia.
      now replace (Z.pos k + 52) with (Z.log2 (Z.pos p)) by lia.
    - apply Z.div_lt_upper_bound; [lia|].
      rewrite <- Z.pow_add_r by lia.
      now replace (Z.pos k + 53) with (Z.succ (Z.log2 (Z.pos p))) by lia. }
  destruct (round_nearest_even_step (shr_m mrs) (loc_of_shr_record mrs))
    as [-> | ->].
  - apply (converted_mono (0 + Z.pos k)); [lia|].
    apply finish_normal; [exact Hnorm|lia].
  - destruct Hnorm as [Hlo' Hhi'].
    destruct (Z.eq_dec (shr_m mrs + 1) (2 ^ 53)) as [->|Hne].
    + apply (converted_mono (0 + Z.pos k + 1)); [lia|].
      apply finish_carry. lia.
    + apply (converted_mono (0 + Z.pos k)); [lia|].
      apply finish_normal; [split; lia|lia].
Qed.

Lemma float_of_positive n :
  0 < n -> converted (Z.log2 n - 51) (binary_normalize prec emax n 0 false).
Proof.
  intros Hn. destruct (Z.lt_ge_cases n (2 ^ 53)) as [Hlt|Hge].
  - destruct (binary_normalize_small n (conj Hn Hlt)) as [-> [Hnorm HL]].
    right. eexists _, _. split; [reflexivity|].
    destruct Hnorm as [Hlo Hhi].
    rewrite Z2Pos.id by lia. split; [split; assumption|lia].
  - now apply binary_normalize_large.
Qed.

(** *** The two estimators *)

Lemma halves_agree top x :
  converted top x ->
  match x with
  | S754_infinity _ | S754_nan => True
  | _ => SFmul prec emax x float_0_5 = SFdiv prec emax x float_2_0
  end.
Proof.
  intros [[_ [s ->]]|[m [e [-> [Hm He]]]]]; [exact I|].
  now rewrite SFmul_half, SFdiv_two by (try assumption; lia).
Qed.

Lemma estimators_agree_on n :
  0 <= n ->
  match float_of_int n with
  | Some x => int_of_float (SFmul prec emax x float_0_5)
  | None => None
  end
  = match float_of_int n with
    | Some x => int_of_float (SFdiv prec emax x float_2_0)
    | None => None
    end.
Proof.
  intros Hn. destruct (Z.eq_dec n 0) as [->|Hne]; [reflexivity|].
  pose proof (halves_agree _ _ (float_of_positive n ltac:(lia))) as H.
  unfold float_of_int.
  destruct (binary_normalize prec emax n 0 false); try reflexivity;
    now rewrite H.
Qed.

Lemma estimate_exact n :
  0 <= n < 2 ^ 53 ->
  match float_of_int n with
  | Some x => int_of_float (SFmul prec emax x float_0_5)
  | None => None
  end = Some (n / 2).
Proof.
  intros [Hn Hlt]. destruct (Z.eq_dec n 0) as [->|Hne]; [reflexivity|].
  destruct (binary_normalize_small n ltac:(lia)) as [Heq [Hnorm HL]].
  unfold float_of_int. rewrite Heq.
  assert (Hm : 0 < n * 2 ^ (52 - Z.log2 n)) by (destruct Hnorm; lia).
  rewrite SFmul_half by (rewrite ?Z2Pos.id by lia; try assumption; lia).
  unfold int_of_float.
  replace (0 <=? Z.log2 n - 52 - 1) with false
    by (symmetry; apply Z.leb_gt; lia).
  rewrite Z2Pos.id by lia. f_equal.
  replace (- (Z.log2 n - 52 - 1)) with (1 + (52 - Z.log2 n)) by lia.
  rewrite Z.pow_add_r by lia. change (2 ^ 1) with 2.
  apply Z.div_mul_cancel_r; [lia|].
  apply Z.pow_nonzero; lia.
Qed.

(** Below the range of [float] the conversion does not overflow, and the
    estimate is returned. *)
Lemma estimate_returns n :
  0 <= n < 2 ^ 1023 ->
  exists k,
    match float_of_int n with
    | Some x => int_of_float (SFmul prec emax x float_0_5)
    | None => None
    end = Some k.
Proof.
  intros [Hn Hlt]. destruct (Z.eq_dec n 0) as [->|Hne]; [now exists 0|].
  assert (HL : Z.log2 n < 1023) by (apply Z.log2_lt_pow2; lia).
  destruct (float_of_positive n ltac:(lia))
    as [[Htop _]|[m [e [Heq [Hm He]]]]]; [lia|].
  unfold float_of_int. rewrite Heq.
  rewrite SFmul_half by (try assumption; lia).
  eexists. reflexivity.
Qed.

Lemma len_nonneg (text : pystr) : 0 <= len text.
Proof. unfold len. lia. Qed.

(** C5.  For every text the two estimators give the same result (the
    same value, or both the overflow of the conversion, which no text of a
    length below [2^63] reaches); below [2^53] characters that value is the
    length halved and rounded down; and for a text of 1,000 characters both
    return 500. *)
Theorem token_estimators_agree (text : pystr) :
  estimate_tokens_v1 text = estimate_tokens_v2 text
  /\ (len text < 2 ^ 53 ->
      estimate_tokens_v1 text = Some (len text / 2)
      /\ estimate_tokens_v2 text = Some (len text / 2))
  /\ (len text = 1000 ->
      estimate_tokens_v1 text = Some 500
      /\ estimate_tokens_v2 text = Some 500)
  /\ (len text < 2 ^ 63 ->
      exists k, estimate_tokens_v1 text = Some k
                /\ estimate_tokens_v2 text = Some k).
Proof.
  assert (Hagree : estimate_tokens_v1 text = estimate_tokens_v2 text).
  { unfold estimate_tokens_v1, estimate_tokens_v2, KOREAN_CHAR_TO_TOKEN_RATIO.
    apply estimators_agree_on, len_nonneg. }
  assert (Hexact : len text < 2 ^ 53 ->
                   estimate_tokens_v1 text = Some (len text / 2)).
  { intros Hlt. unfold estimate_tokens_v1.
    apply estimate_exact. split; [apply len_nonneg|exact Hlt]. }
  split; [exact Hagree|]. split; [|split].
  - intros Hlt. split; [|rewrite <- Hagree]; now apply Hexact.
  - intros Hlen.
    assert (H500 : estimate_tokens_v1 text = Some 500).
    { rewrite Hexact by lia. now rewrite Hlen. }
    split; [|rewrite <- Hagree]; exact H500.
  - intros Hlt.
    destruct (estimate_returns (len text)) as [k Hk].
    { split; [apply len_nonneg|].
      apply Z.lt_trans with (2 ^ 63); [exact Hlt|].
      apply Z.pow_lt_mono_r; lia. }
    exists k. split; [|rewrite <- Hagree]; exact Hk.
Qed.

(** A text of 1,000 characters. *)
Lemma token_estimators_agree_witness :
  estimate_tokens_v1 (repeat 97 1000) = estimate_tokens_v2 (repeat 97 1000)
  /\ estimate_tokens_v1 (repeat 97 1000) = Some 500
  /\ estimate_tokens_v2 (repeat 97 1000) = Some 500.
Proof.
  destruct (token_estimators_agree (repeat 97 1000)) as [H [_ [H1000 _]]].
  split; [exact H|]. apply H1000. reflexivity.
Defined.

End EstimatorFacts.

(** ** URL normalisation *)

Module NormalizeUrlFacts.
Import PyStr NormalizeUrl.

Lemma contains_false c (s : pystr) :
  contains c s = false <-> Forall (fun x => x <> c) s.
Proof.
  unfold contains. induction s as [|x s IH]; simpl.
  - split; [constructor|reflexivity].
  - rewrite orb_false_iff, IH, Z.eqb_neq. split.
    + intros [Hx Hs]. now constructor.
    + intros H. inversion H; subst. now split.
Qed.

Lemma contains_false_eqb c (s : pystr) :
  contains c s = false -> Forall (fun x => (x =? c) = false) s.
Proof.
  unfold contains. induction s as [|x s IH]; simpl; [constructor|].
  intros [Hx Hs]%orb_false_iff. constructor; [exact Hx|now apply IH].
Qed.

Lemma lstrip_keeps (P : Z -> Prop) (s : pystr) :
  Forall P s -> Forall P (lstrip s).
Proof.
  induction 1 as [|c s Hc Hs IH]; simpl; [constructor|].
  destruct (isspace c); [exact IH|now constructor].
Qed.

Lemma strip_keeps (P : Z -> Prop) (s : pystr) :
  Forall P s -> Forall P (strip s).
Proof.
  intros H. unfold strip, rstrip.
  apply Forall_rev, lstrip_keeps, Forall_rev, lstrip_keeps, H.
Qed.

Lemma dot_star_dollar_one_line (s : pystr) :
  Forall (fun x => x <> newline) s -> dot_star_dollar s = Some [].
Proof.
  induction 1 as [|c s Hc _ IH]; simpl; [reflexivity|].
  now destruct (Z.eqb_spec c newline).
Qed.

(** On one line, the substitution cuts the string at the first character
    that opens the pattern. *)
Lemma re_sub_tail_one_line opens (s : pystr) :
  Forall (fun x => x <> newline) s ->
  re_sub_tail opens s = before_first opens s.
Proof.
  induction 1 as [|c s Hc Hs IH]; simpl; [reflexivity|].
  destruct (opens c); [|now rewrite IH].
  now rewrite (dot_star_dollar_one_line s Hs).
Qed.

Lemma re_sub_tail_nothing_opens opens (s : pystr) :
  Forall (fun x => opens x = false) s -> re_sub_tail opens s = s.
Proof.
  induction 1 as [|c s Hc _ IH]; simpl; [reflexivity|].
  now rewrite Hc, IH.
Qed.

Lemma before_first_closed opens (s : pystr) :
  Forall (fun x => opens x = false) (before_first opens s).
Proof.
  induction s as [|c s IH]; simpl; [constructor|].
  destruct (opens c) eqn:Hc; [constructor|now constructor].
Qed.

Lemma before_first_keeps (P : Z -> Prop) opens (s : pystr) :
  Forall P s -> Forall P (before_first opens s).
Proof.
  induction 1 as [|c s Hc _ IH]; simpl; [constructor|].
  destruct (opens c); [constructor|now constructor].
Qed.

Lemma before_first_twice p q (s : pystr) :
  before_first q (before_first p s)
  = before_first (fun c => p c || q c) s.
Proof.
  induction s as [|c s IH]; simpl; [reflexivity|].
  destruct (p c); simpl; [reflexivity|].
  destruct (q c); [reflexivity|now rewrite IH].
Qed.

Lemma closed_no_query_or_fragment (s : pystr) :
  Forall (fun x => query_or_fragment x = false) s ->
  contains question_mark s = false /\ contains hash_sign s = false.
Proof.
  intros H. rewrite !contains_false. split.
  - induction H as [|c s Hc _ IH]; constructor; [|exact IH].
    apply orb_false_iff in Hc as [Hc _]. now apply Z.eqb_neq.
  - induction H as [|c s Hc _ IH]; constructor; [|exact IH].
    apply orb_false_iff in Hc as [_ Hc]. now apply Z.eqb_neq.
Qed.

Lemma no_query_or_fragment_closed (s : pystr) :
  contains question_mark s = false -> contains hash_sign s = false ->
  Forall (fun x => query_or_fragment x = false) s.
Proof.
  rewrite !contains_false. intros Hq. induction Hq as [|c s Hc _ IH].
  - constructor.
  - intros Hh. inversion Hh; subst. constructor; [|now apply IH].
    apply orb_false_iff. split; now apply Z.eqb_neq.
Qed.

(** Draft v1 on one line: the stripped URL up to its first [?] or [#]. *)
Lemma normalize_url_v1_one_line (url : pystr) :
  contains newline url = false ->
  normalize_url_v1 url = before_first query_or_fragment (strip url).
Proof.
  intros Hnl. unfold normalize_url_v1.
  apply re_sub_tail_one_line, strip_keeps, contains_false, Hnl.
Qed.

(** Draft v2 on one line: the same cut, of the lowered URL. *)
Lemma normalize_url_v2_one_line lower (url : pystr) :
  contains newline (lower url) = false ->
  normalize_url_v2 lower url
  = before_first query_or_fragment (strip (lower url)).
Proof.
  intros Hnl. unfold normalize_url_v2.
  assert (Hline : Forall (fun x => x <> newline) (strip (lower url)))
    by apply strip_keeps, contains_false, Hnl.
  rewrite (re_sub_tail_one_line _ _ Hline).
  rewrite re_sub_tail_one_line by now apply before_first_keeps.
  apply before_first_twice.
Qed.

(** C8, as stated, fails.  A URL with no query and no fragment is changed
    when it ends in a blank (v1 and v2) or has a capital letter (v2, with
    [lower] folding ASCII letters as [str.lower] does); the result of a
    normalisation is changed by another one ([a ?b] gives [a ], which gives
    [a]); and where a newline follows the query, the query stays. *)
Lemma normalize_url_not_identity :
  (contains question_mark (lit "a ") = false
   /\ contains hash_sign (lit "a ") = false
   /\ normalize_url_v1 (lit "a ") = lit "a"
   /\ normalize_url_v2 ascii_lower (lit "a ") = lit "a")
  /\ (contains question_mark (lit "HTTP://Example.com/News") = false
      /\ contains hash_sign (lit "HTTP://Example.com/News") = false
      /\ normalize_url_v2 ascii_lower (lit "HTTP://Example.com/News")
         = lit "http://example.com/news")
  /\ (normalize_url_v1 (lit "a ?b") = lit "a "
      /\ normalize_url_v1 (lit "a ") = lit "a")
  /\ normalize_url_v1 (lit "a?b" ++ [newline] ++ lit "c#d")
     = lit "a?b" ++ [newline] ++ lit "c".
Proof. repeat split; vm_compute; reflexivity. Qed.

(** C8, amended.  In both drafts (v2 for whatever [lower] is): a URL with
    no [?] and no [#] that [strip] leaves alone (and, in v2, that [lower]
    leaves alone) is returned as it is; and a URL on one line comes out as
    the stripped (in v2, lowered and stripped) URL cut before its first [?]
    or [#], so with neither a query nor a fragment. *)
Theorem normalize_url_fixed_points_and_cut
  (lower : pystr -> pystr) (url : pystr) :
  (contains question_mark url = false -> contains hash_sign url = false ->
   strip url = url ->
   normalize_url_v1 url = url
   /\ (lower url = url -> normalize_url_v2 lower url = url))
  /\ (contains newline url = false ->
      normalize_url_v1 url = before_first query_or_fragment (strip url)
      /\ contains question_mark (normalize_url_v1 url) = false
      /\ contains hash_sign (normalize_url_v1 url) = false)
  /\ (contains newline (lower url) = false ->
      normalize_url_v2 lower url
      = before_first query_or_fragment (strip (lower url))
      /\ contains question_mark (normalize_url_v2 lower url) = false
      /\ contains hash_sign (normalize_url_v2 lower url) = false).
Proof.
  split; [|split].
  - intros Hq Hh Hstrip.
    pose proof (no_query_or_fragment_closed url Hq Hh) as Hclosed.
    split.
    + unfold normalize_url_v1. rewrite Hstrip.
      now apply re_sub_tail_nothing_opens.
    + intros Hlower. unfold normalize_url_v2. rewrite Hlower, Hstrip.
      rewrite (re_sub_tail_nothing_opens _ url)
        by now apply contains_false_eqb.
      now apply re_sub_tail_nothing_opens, contains_false_eqb.
  - intros Hnl. rewrite (normalize_url_v1_one_line url Hnl).
    split; [reflexivity|].
    apply closed_no_query_or_fragment, before_first_closed.
  - intros Hnl. rewrite (normalize_url_v2_one_line lower url Hnl).
    split; [reflexivity|].
    apply closed_no_query_or_fragment, before_first_closed.
Qed.

(** A clean URL, and one with blanks, a query and a fragment. *)
Lemma normalize_url_fixed_points_and_cut_witness :
  (normalize_url_v1 (lit "http://a.example/x") = lit "http://a.example/x"
   /\ normalize_url_v2 ascii_lower (lit "http://a.example/x")
      = lit "http://a.example/x")
  /\ (normalize_url_v1 (lit " http://a.example/x?id=1#top")
      = before_first query_or_fragment (strip (lit " http://a.example/x?id=1#top"))
      /\ contains question_mark (normalize_url_v1 (lit " http://a.example/x?id=1#top")) = false
      /\ contains hash_sign (normalize_url_v1 (lit " http://a.example/x?id=1#top")) = false)
  /\ (normalize_url_v2 ascii_lower (lit " http://A.example/x?id=1#top")
      = before_first query_or_fragment
          (strip (ascii_lower (lit " http://A.example/x?id=1#top")))
      /\ contains question_mark
           (normalize_url_v2 ascii_lower (lit " http://A.example/x?id=1#top")) = false
      /\ contains hash_sign
           (normalize_url_v2 ascii_lower (lit " http://A.example/x?id=1#top")) = false).
Proof.
  split; [|split].
  - pose proof (proj1 (normalize_url_fixed_points_and_cut
                         ascii_lower (lit "http://a.example/x"))) as H.
    destruct H as [H1 H2]; [reflexivity..|].
    split; [exact H1|apply H2; reflexivity].
  - apply (proj1 (proj2 (normalize_url_fixed_points_and_cut
                           ascii_lower (lit " http://a.example/x?id=1#top")))).
    reflexivity.
  - apply (proj2 (proj2 (normalize_url_fixed_points_and_cut
                           ascii_lower (lit " http://A.example/x?id=1#top")))).
    reflexivity.
Defined.

End NormalizeUrlFacts.

(** ** The trending operation *)

Module NewsRouterFacts.
Import NewsRouter.

Lemma trending_is_last_route :
  last router = Some (mkRoute GET "/trending/" get_trending_news).
Proof. reflexivity. Qed.

(** The routes with a parameter in first position do not take the path:
    it has one segment more. *)
Lemma trending_path_not_shadowed :
  segments_match (segments "/{news_id}") (segments "/trending/") = false.
Proof. reflexivity. Qed.

(** C9, as stated, fails: the decorator has put the trending operation in
    the router's table, and the router dispatches a [GET /trending/] to
    it. *)
Lemma trending_route_is_registered :
  In (mkRoute GET "/trending/" get_trending_news) router
  /\ dispatch GET "/trending/" = Some get_trending_news.
Proof.
  split.
  - unfold router. do 8 right. now left.
  - reflexivity.
Qed.

(** C9, amended.  The trending operation is in the router's table under
    [GET /trending/]; its body stops after the query is built and has no
    [return], so whatever the parameters, the time and the ORM's query
    object, a call never returns a list of news: it returns nothing when
    the trailing attribute access succeeds and raises when it does not. *)
Theorem trending_registered_returns_no_list
  (news_row : Type) (query_has_attribute : string -> bool)
  (limit hours now : Z) :
  dispatch GET "/trending/" = Some get_trending_news
  /\ (forall rows : list news_row,
        get_trending_news_body news_row query_has_attribute limit hours now
        <> Returns (Some rows))
  /\ (get_trending_news_body news_row query_has_attribute limit hours now
      = Returns None
      \/ exists exc,
           get_trending_news_body news_row query_has_attribute limit hours now
           = Raises exc).
Proof.
  split; [reflexivity|].
  unfold get_trending_news_body.
  destruct (timedelta_of_hours hours) as [delta|];
    [destruct (datetime_minus now delta) as [time_threshold|];
     [destruct (query_has_attribute "group")|]|];
    (split; [intros rows; discriminate|eauto]).
Qed.

End NewsRouterFacts.

(** ** SimHash deduplication *)

Module SimHashFacts.
Import PyStr NormalizeUrl SimHash.

(** *** The loop of [hamming_distance] counts the set bits *)

Lemma popcount_double z : popcount (2 * z) = popcount z.
Proof. now destruct z. Qed.

Lemma popcount_double_one z : 0 <= z -> popcount (2 * z + 1) = S (popcount z).
Proof. destruct z; simpl; try reflexivity; lia. Qed.

Lemma land_double a b (x y : bool) :
  Z.land (2 * a + Z.b2z x) (2 * b + Z.b2z y)
  = 2 * Z.land a b + Z.b2z (x && y).
Proof.
  apply Z.bits_inj'. intros n Hn. rewrite Z.land_spec.
  destruct (Z.eq_dec n 0) as [->|Hne].
  - now rewrite !Z.testbit_0_r.
  - replace n with (Z.succ (n - 1)) by lia.
    rewrite !Z.testbit_succ_r by lia. now rewrite Z.land_spec.
Qed.

(** [x & (x - 1)] clears the lowest set bit of [x]. *)
Lemma land_pred_popcount p :
  0 <= Z.land (Zpos p) (Zpos p - 1)
  /\ S (popcount (Z.land (Zpos p) (Zpos p - 1))) = pos_popcount p.
Proof.
  induction p as [p IH|p IH|].
  - replace (Zpos p~1) with (2 * Zpos p + Z.b2z true) by (simpl; lia).
    replace (2 * Zpos p + Z.b2z true - 1) with (2 * Zpos p + Z.b2z false)
      by (simpl; lia).
    rewrite land_double, Z.land_diag. simpl Z.b2z.
    rewrite Z.add_0_r, popcount_double. split; [lia|reflexivity].
  - replace (Zpos p~0) with (2 * Zpos p + Z.b2z false) by (simpl; lia).
    replace (2 * Zpos p + Z.b2z false - 1)
      with (2 * (Zpos p - 1) + Z.b2z true) by (simpl; lia).
    rewrite land_double. simpl Z.b2z. rewrite Z.add_0_r, popcount_double.
    destruct IH as [IH0 IH1]. split; [lia|exact IH1].
  - split; [reflexivity|reflexivity].
Qed.

Lemma hamming_loop_popcount fuel :
  forall x d, 0 <= x -> (popcount x < fuel)%nat ->
  hamming_loop fuel x d = Some (d + Z.of_nat (popcount x)).
Proof.
  induction fuel as [|fuel IH]; intros x d Hx Hfuel; [lia|].
  simpl. destruct x as [|p|p]; [| |lia].
  - simpl. f_equal. lia.
  - change (Z.pos p =? 0) with false. cbv iota.
    destruct (land_pred_popcount p) as [H0 H1].
    rewrite IH; [|exact H0|simpl in Hfuel; lia].
    f_equal. simpl popcount. lia.
Qed.

(** *** Set bits and bit positions *)

Lemma length_filter_map_S (f : nat -> bool) (l : list nat) :
  length (List.filter f (List.map S l))
  = length (List.filter (fun i => f (S i)) l).
Proof.
  induction l as [|i l IH]; simpl; [reflexivity|].
  destruct (f (S i)); simpl; now rewrite IH.
Qed.

Lemma count_bits_le n x : (count_bits n x <= n)%nat.
Proof.
  unfold count_bits.
  etransitivity; [apply List.filter_length_le|]. now rewrite length_seq.
Qed.

Lemma count_bits_succ n a (b : bool) :
  count_bits (S n) (2 * a + Z.b2z b)
  = ((if b then 1 else 0) + count_bits n a)%nat.
Proof.
  unfold count_bits. rewrite <- cons_seq, <- seq_shift. cbn [List.filter].
  change (Z.of_nat 0) with 0. rewrite Z.testbit_0_r.
  assert (Hshift :
    length (List.filter
              (fun i => Z.testbit (2 * a + Z.b2z b) (Z.of_nat i))
              (List.map S (seq 0 n)))
    = length (List.filter (fun i => Z.testbit a (Z.of_nat i)) (seq 0 n))).
  { rewrite length_filter_map_S. f_equal. apply List.filter_ext.
    intros i. rewrite Nat2Z.inj_succ. apply Z.testbit_succ_r. lia. }
  destruct b; cbn [length Nat.add]; now rewrite Hshift.
Qed.

Lemma popcount_count_bits n :
  forall x, 0 <= x < 2 ^ Z.of_nat n -> popcount x = count_bits n x.
Proof.
  induction n as [|n IH]; intros x Hx.
  - simpl in Hx. now replace x with 0 by lia.
  - rewrite Nat2Z.inj_succ, Z.pow_succ_r in Hx by lia.
    rewrite (Z.div2_odd x) at 2. rewrite count_bits_succ.
    rewrite <- IH by (rewrite Z.div2_div; split;
                      [apply Z.div_pos; lia
                      |apply Z.div_lt_upper_bound; lia]).
    rewrite (Z.div2_odd x) at 1.
    destruct (Z.odd x); simpl Z.b2z.
    + rewrite popcount_double_one; [reflexivity|].
      rewrite Z.div2_div. apply Z.div_pos; lia.
    + now rewrite Z.add_0_r, popcount_double.
Qed.

Lemma lxor_range n a b :
  0 <= n -> 0 <= a < 2 ^ n -> 0 <= b < 2 ^ n -> 0 <= Z.lxor a b < 2 ^ n.
Proof.
  intros Hn Ha Hb.
  assert (H0 : 0 <= Z.lxor a b) by (apply Z.lxor_nonneg; lia).
  split; [exact H0|].
  destruct (Z.eq_dec (Z.lxor a b) 0) as [->|Hne]; [lia|].
  assert (Hpos : 0 < n).
  { destruct (Z.eq_dec n 0) as [->|]; [|lia]. exfalso. apply Hne.
    replace a with 0 by (simpl in Ha; lia).
    now replace b with 0 by (simpl in Hb; lia). }
  apply Z.log2_lt_pow2; [lia|].
  pose proof (Z.log2_lxor a b) as Hlog.
  assert (Z.log2 a < n).
  { destruct (Z.eq_dec a 0) as [->|]; [simpl|apply Z.log2_lt_pow2]; lia. }
  assert (Z.log2 b < n).
  { destruct (Z.eq_dec b 0) as [->|]; [simpl|apply Z.log2_lt_pow2]; lia. }
  lia.
Qed.

Lemma differing_bits_count n h1 h2 :
  differing_bits n h1 h2 = Z.of_nat (count_bits n (Z.lxor h1 h2)).
Proof.
  unfold differing_bits, count_bits. do 2 f_equal.
  apply List.filter_ext. intros i. now rewrite Z.lxor_spec.
Qed.

(** On 64-bit values, with 65 or more tests of the loop condition,
    [hamming_distance] returns the number of differing positions. *)
Lemma hamming_distance_differing_bits fuel h1 h2 :
  (64 < fuel)%nat -> 0 <= h1 < 2 ^ 64 -> 0 <= h2 < 2 ^ 64 ->
  hamming_distance fuel h1 h2 = Some (differing_bits 64 h1 h2).
Proof.
  intros Hfuel H1 H2.
  pose proof (lxor_range 64 h1 h2 ltac:(lia) H1 H2) as Hx.
  pose proof (popcount_count_bits 64 (Z.lxor h1 h2) Hx) as Hpop.
  pose proof (count_bits_le 64 (Z.lxor h1 h2)).
  unfold hamming_distance. rewrite hamming_loop_popcount by lia.
  now rewrite differing_bits_count, Hpop.
Qed.

(** *** Fingerprints have [bit_length] bits *)

Lemma vote_length h vec : forall i, length (vote h i vec) = length vec.
Proof. induction vec as [|v vec IH]; intros i; simpl; [|rewrite IH]; reflexivity. Qed.

Lemma lor_bit_range i fp :
  0 <= i -> 0 <= fp < 2 ^ i -> 0 <= Z.lor fp (Z.shiftl 1 i) < 2 ^ (i + 1).
Proof.
  intros Hi Hfp. rewrite Z.shiftl_1_l.
  assert (Hpow : 0 < 2 ^ i) by (apply Z.pow_pos_nonneg; lia).
  assert (H0 : 0 <= Z.lor fp (2 ^ i)) by (apply Z.lor_nonneg; lia).
  split; [exact H0|].
  assert (Hne : Z.lor fp (2 ^ i) <> 0).
  { intros [_ H]%Z.lor_eq_0_iff. lia. }
  apply Z.log2_lt_pow2; [lia|].
  rewrite Z.log2_lor by lia. rewrite Z.log2_pow2 by lia.
  assert (Z.log2 fp < i \/ fp = 0) as [?| ->].
  { destruct (Z.eq_dec fp 0); [now right|left].
    apply Z.log2_lt_pow2; lia. }
  - lia.
  - simpl. lia.
Qed.

Lemma set_bits_range vec :
  forall i fp, 0 <= i -> 0 <= fp < 2 ^ i ->
  0 <= set_bits i vec fp < 2 ^ (i + Z.of_nat (length vec)).
Proof.
  induction vec as [|v vec IH]; intros i fp Hi Hfp.
  - simpl. now rewrite Z.add_0_r.
  - cbn [set_bits length]. rewrite Nat2Z.inj_succ.
    replace (i + Z.succ (Z.of_nat (length vec)))
      with ((i + 1) + Z.of_nat (length vec)) by lia.
    apply IH; [lia|].
    destruct (0 <? v).
    + now apply lor_bit_range.
    + rewrite Z.pow_add_r, Z.pow_1_r by lia. lia.
Qed.

Section Rule.

Variable lower : pystr -> pystr.
Variable findall_words : pystr -> list pystr.
Variable md5_int : pystr -> Z.

Local Abbreviation calculate_simhash := (calculate_simhash lower findall_words md5_int).
Local Abbreviation fingerprint := (fingerprint lower findall_words md5_int).
Local Abbreviation normalized := (normalized lower findall_words md5_int).
Local Abbreviation dedup_step := (dedup_step lower findall_words md5_int).
Local Abbreviation dedup_from := (dedup_from lower findall_words md5_int).
Local Abbreviation dedup := (dedup lower findall_words md5_int).
Local Abbreviation far_from_all := (far_from_all lower findall_words md5_int).
Local Abbreviation in_step := (in_step lower findall_words md5_int).

Lemma calculate_simhash_range text n :
  0 <= calculate_simhash text n < 2 ^ Z.of_nat n.
Proof.
  unfold SimHash.calculate_simhash.
  set (vec := fold_left _ _ _).
  assert (Hlen : length vec = n).
  { unfold vec. generalize (findall_words (lower text)) as tokens.
    intros tokens.
    assert (H : forall v0, length (fold_left
                (fun vec token => vote (md5_int token) 0 vec) tokens v0)
              = length v0).
    { induction tokens as [|t tokens IH]; intros v0; simpl; [reflexivity|].
      now rewrite IH, vote_length. }
    now rewrite H, repeat_length. }
  rewrite <- Hlen. apply (set_bits_range vec 0 0); lia.
Qed.

Lemma fingerprint_range a : 0 <= fingerprint a < 2 ^ 64.
Proof. apply (calculate_simhash_range _ 64). Qed.

Lemma fingerprint_normalized a : fingerprint (normalized a) = fingerprint a.
Proof. reflexivity. Qed.

(** *** The inner loop decides "some kept fingerprint is closer than 3" *)

Lemma is_duplicate_decides fuel h (seen : list Z) :
  (64 < fuel)%nat -> 0 <= h < 2 ^ 64 ->
  Forall (fun s => 0 <= s < 2 ^ 64) seen ->
  is_duplicate fuel h seen
  = Some (negb (forallb (fun s => 3 <=? differing_bits 64 h s) seen)).
Proof.
  intros Hfuel Hh. induction 1 as [|s seen Hs _ IH]; simpl; [reflexivity|].
  rewrite (hamming_distance_differing_bits fuel h s Hfuel Hh Hs).
  rewrite Z.ltb_antisym.
  destruct (3 <=? differing_bits 64 h s); simpl; [exact IH|reflexivity].
Qed.

Lemma forallb_same_elements (P : Z -> bool) (l1 l2 : list Z) :
  (forall x, x ∈ l1 <-> x ∈ l2) -> forallb P l1 = forallb P l2.
Proof.
  intros Hsame. apply eq_true_iff_eq. rewrite !forallb_forall.
  split; intros H x Hx; apply H, list_elem_of_In, Hsame, list_elem_of_In, Hx.
Qed.

Lemma forallb_fingerprints (P : Z -> bool) (kept : list Article) :
  forallb P (List.map fingerprint kept)
  = forallb (fun k => P (fingerprint k)) kept.
Proof. induction kept as [|k kept IH]; simpl; [|rewrite IH]; reflexivity. Qed.

Lemma dedup_step_rule fuel (st : gset Z * list Article) (a : Article) :
  (64 < fuel)%nat -> in_step st ->
  dedup_step fuel st a
  = Some (if far_from_all st.2 a
          then ({[fingerprint a]} ∪ st.1, st.2 ++ [normalized a])
          else st).
Proof.
  intros Hfuel Hst. unfold SimHash.dedup_step.
  change (SimHash.calculate_simhash lower findall_words md5_int _ 64)
    with (fingerprint a).
  rewrite (is_duplicate_decides fuel (fingerprint a)); [|exact Hfuel| |].
  - assert (Hfar :
      forallb (fun s => 3 <=? differing_bits 64 (fingerprint a) s)
        (elements st.1)
      = far_from_all st.2 a).
    { unfold SimHash.far_from_all.
      rewrite <- (forallb_fingerprints
                    (fun s => 3 <=? differing_bits 64 (fingerprint a) s)).
      apply forallb_same_elements. intros x.
      rewrite elem_of_elements, Hst. apply elem_of_list_to_set. }
    rewrite Hfar. now destruct (far_from_all st.2 a).
  - apply fingerprint_range.
  - apply Forall_forall. intros s Hs.
    apply elem_of_elements in Hs.
    rewrite Hst in Hs. apply elem_of_list_to_set in Hs.
    apply (proj1 (list_elem_of_In _ _)), in_map_iff in Hs as [k [<- _]].
    apply fingerprint_range.
Qed.

Lemma dedup_step_in_step fuel st a st' :
  (64 < fuel)%nat -> in_step st -> dedup_step fuel st a = Some st' ->
  in_step st'.
Proof.
  intros Hfuel Hst. rewrite (dedup_step_rule fuel st a Hfuel Hst).
  intros [= <-]. destruct (far_from_all st.2 a); [|exact Hst].
  unfold SimHash.in_step in *. simpl. rewrite List.map_app, list_to_set_app_L.
  simpl. rewrite <- Hst, fingerprint_normalized, union_empty_r_L.
  apply (comm_L (∪)).
Qed.

Lemma dedup_from_returns fuel (batch : list Article) :
  (64 < fuel)%nat ->
  forall st, in_step st ->
  exists st', dedup_from fuel st batch = Some st' /\ in_step st'.
Proof.
  intros Hfuel. induction batch as [|a batch IH]; intros st Hst.
  - exists st. now split.
  - simpl. rewrite (dedup_step_rule fuel st a Hfuel Hst).
    apply IH.
    apply (dedup_step_in_step fuel st a _ Hfuel Hst).
    apply (dedup_step_rule fuel st a Hfuel Hst).
Qed.

Lemma dedup_from_snoc fuel (batch : list Article) (a : Article) :
  forall st,
  dedup_from fuel st (batch ++ [a])
  = match dedup_from fuel st batch with
    | Some st' => dedup_step fuel st' a
    | None => None
    end.
Proof.
  induction batch as [|b batch IH]; intros st; simpl.
  - now destruct (dedup_step fuel st a).
  - destruct (dedup_step fuel st b); [apply IH|reflexivity].
Qed.

(** C7.  With 65 or more tests allowed to the loop, [hamming_distance]
    of two 64-bit values returns the number of positions at which they
    differ, which is the number of set bits of their XOR; the fingerprint
    of an article is a 64-bit value; and step 2 of the pipeline, run on a
    batch and then on one more article, returns, keeping that article
    (and adding its fingerprint to [seen_hashes]) exactly when its
    fingerprint differs in 3 or more positions from the fingerprint of
    every article kept from the batch, and dropping it otherwise. *)
Theorem simhash_dedup_rule (extra : nat) (batch : list Article) (a : Article) :
  let fuel := (65 + extra)%nat in
  (forall h1 h2, 0 <= h1 < 2 ^ 64 -> 0 <= h2 < 2 ^ 64 ->
     hamming_distance fuel h1 h2 = Some (differing_bits 64 h1 h2)
     /\ differing_bits 64 h1 h2 = Z.of_nat (popcount (Z.lxor h1 h2)))
  /\ 0 <= fingerprint a < 2 ^ 64
  /\ exists seen kept,
       dedup fuel batch = Some (seen, kept)
       /\ seen = list_to_set (List.map fingerprint kept)
       /\ dedup fuel (batch ++ [a])
          = Some (if far_from_all kept a
                  then ({[fingerprint a]} ∪ seen, kept ++ [normalized a])
                  else (seen, kept)).
Proof.
  intros fuel. assert (Hfuel : (64 < fuel)%nat) by (unfold fuel; lia).
  split; [|split].
  - intros h1 h2 H1 H2. split.
    + now apply hamming_distance_differing_bits.
    + rewrite differing_bits_count. f_equal. symmetry.
      apply popcount_count_bits. now apply (lxor_range 64).
  - apply fingerprint_range.
  - assert (Hinit : in_step (∅, [])) by reflexivity.
    destruct (dedup_from_returns fuel batch Hfuel _ Hinit)
      as [[seen kept] [Hrun Hst]].
    exists seen, kept. split; [exact Hrun|]. split; [exact Hst|].
    unfold SimHash.dedup. rewrite dedup_from_snoc.
    unfold SimHash.dedup in Hrun. rewrite Hrun.
    rewrite (dedup_step_rule fuel (seen, kept) a Hfuel Hst). simpl.
    now destruct (far_from_all kept a).
Qed.

End Rule.

(** A batch of one article, then a second one, with the stand-ins. *)
Lemma simhash_dedup_rule_witness :
  (hamming_distance 65 5 6 = Some (differing_bits 64 5 6)
   /\ differing_bits 64 5 6 = Z.of_nat (popcount (Z.lxor 5 6)))
  /\ exists seen kept,
       dedup ascii_lower one_token length_hash 65
         [sample_article "first"]
       = Some (seen, kept)
       /\ seen = list_to_set
                   (List.map (fingerprint ascii_lower one_token length_hash)
                      kept)
       /\ dedup ascii_lower one_token length_hash 65
            ([sample_article "first"] ++ [sample_article "a second one"])
          = Some (if far_from_all ascii_lower one_token length_hash kept
                       (sample_article "a second one")
                  then ({[fingerprint ascii_lower one_token length_hash
                            (sample_article "a second one")]} ∪ seen,
                        kept ++ [normalized ascii_lower one_token length_hash
                                   (sample_article "a second one")])
                  else (seen, kept)).
Proof.
  destruct (simhash_dedup_rule ascii_lower one_token length_hash 0
              [sample_article "first"] (sample_article "a second one"))
    as [Hdist [_ Hrule]].
  split.
  - apply Hdist; lia.
  - exact Hrule.
Defined.

End SimHashFacts.

(** ** More on passwords: [utils.py] *)

Module PasswordLaws.
Import PyStr PyStrOps Utils.

Lemma split_length sep (s : pystr) :
  length (split sep s) = S (count sep s).
Proof.
  unfold count. induction s as [|c s IH]; simpl; [reflexivity|].
  destruct (c =? sep); simpl; [now rewrite IH|].
  destruct (split sep s) as [|field fields]; simpl in *; [discriminate|exact IH].
Qed.

Lemma hex_digits_distinct : NoDup (lit "0123456789abcdef").
Proof. apply (bool_decide_unpack _). vm_compute. exact I. Qed.

Lemma hex_digit_injective m n :
  0 <= m < 16 -> 0 <= n < 16 -> hex_digit m = hex_digit n -> m = n.
Proof.
  intros Hm Hn Heq. unfold hex_digit in Heq.
  pose proof hex_digits_distinct as Hnd. apply NoDup_ListNoDup in Hnd.
  assert (Z.to_nat m = Z.to_nat n); [|lia].
  apply (proj1 (List.NoDup_nth _ 48) Hnd); [| |exact Heq];
    change (length (lit "0123456789abcdef")) with 16%nat; lia.
Qed.

Lemma hex_length (b : bytes) : length (hex b) = (2 * length b)%nat.
Proof. induction b as [|x b IH]; simpl; [reflexivity|]. rewrite IH. lia. Qed.

(** [hex] loses nothing on octets. *)
Lemma hex_injective (a b : bytes) :
  octets a -> octets b -> hex a = hex b -> a = b.
Proof.
  intros Ha. revert b. induction Ha as [|x a Hx _ IH]; intros b Hb Heq.
  - destruct b as [|y b]; [reflexivity|discriminate].
  - destruct Hb as [|y b Hy Hb]; [discriminate|].
    simpl in Heq. injection Heq as Hhi Hlo Hrest.
    apply hex_digit_injective in Hhi;
      [|apply Z.mod_pos_bound; lia|apply Z.mod_pos_bound; lia].
    apply hex_digit_injective in Hlo;
      [|apply Z.mod_pos_bound; lia|apply Z.mod_pos_bound; lia].
    f_equal; [|now apply IH].
    rewrite (Z.div_mod x 16), (Z.div_mod y 16) by lia.
    rewrite (Z.mod_small (x / 16) 16) in Hhi
      by (split; [apply Z.div_pos|apply Z.div_lt_upper_bound]; lia).
    rewrite (Z.mod_small (y / 16) 16) in Hhi
      by (split; [apply Z.div_pos|apply Z.div_lt_upper_bound]; lia).
    now rewrite Hhi, Hlo.
Qed.

Section Laws.

Variable pbkdf2_hmac : string -> bytes -> bytes -> Z -> bytes.

(** What [hash_password] returns: the salt in hexadecimal, a dollar sign,
    the derived key in hexadecimal. *)
Lemma hash_password_shape drawn password pw :
  encode_utf8 password = Some pw ->
  hash_password pbkdf2_hmac drawn password
  = Some (hex drawn ++ 36 :: hex (pbkdf2_hmac "sha256" pw (hex drawn) 100000)).
Proof.
  intros Hpw. unfold hash_password.
  now rewrite Hpw, (PasswordFacts.encode_utf8_plain _ (PasswordFacts.hex_plain drawn)).
Qed.

(** X1.  A stored value in which the dollar sign does not occur exactly
    once is refused, for every password: [verify_password] returns
    [False]. *)
Theorem verify_password_malformed (password stored : pystr) :
  count 36 stored <> 1%nat ->
  verify_password pbkdf2_hmac password stored = false.
Proof.
  intros Hcount. unfold verify_password.
  pose proof (split_length 36 stored) as Hlen.
  destruct (split 36 stored) as [|salt [|digest [|extra fields]]];
    try reflexivity.
  simpl in Hlen. lia.
Qed.

(** X2.  Against the value [hash_password] returned for a password,
    [verify_password] answers for any candidate by deriving the
    candidate's key under the stored salt and comparing the hexadecimal
    forms; a candidate that does not encode is refused. *)
Theorem verify_password_recomputes
  (drawn : bytes) (password candidate : pystr) (pw : bytes) :
  encode_utf8 password = Some pw ->
  exists hashed,
    hash_password pbkdf2_hmac drawn password = Some hashed
    /\ verify_password pbkdf2_hmac candidate hashed
       = match encode_utf8 candidate with
         | Some cand =>
             bool_decide
               (hex (pbkdf2_hmac "sha256" cand (hex drawn) 100000)
                = hex (pbkdf2_hmac "sha256" pw (hex drawn) 100000))
         | None => false
         end.
Proof.
  intros Hpw. eexists. split; [exact (hash_password_shape _ _ _ Hpw)|].
  unfold verify_password.
  rewrite PasswordFacts.split_at_separator
    by apply PasswordFacts.plain_not_dollar, PasswordFacts.hex_plain.
  rewrite (PasswordFacts.encode_utf8_plain _ (PasswordFacts.hex_plain drawn)).
  now destruct (encode_utf8 candidate).
Qed.

(** X3.  The stored value is salted: for one password, two different draws
    of sixteen octets give two different values; each value is 33
    characters longer than the hexadecimal form of the derived key. *)
Theorem hash_password_salted
  (drawn1 drawn2 : bytes) (password : pystr) (h1 h2 : pystr) :
  octets drawn1 -> octets drawn2 ->
  length drawn1 = 16%nat -> length drawn2 = 16%nat ->
  hash_password pbkdf2_hmac drawn1 password = Some h1 ->
  hash_password pbkdf2_hmac drawn2 password = Some h2 ->
  (drawn1 <> drawn2 -> h1 <> h2)
  /\ exists pw,
       encode_utf8 password = Some pw
       /\ length h1
          = (33 + length (hex (pbkdf2_hmac "sha256" pw (hex drawn1) 100000)))%nat.
Proof.
  intros Ho1 Ho2 Hl1 Hl2 Hh1 Hh2.
  destruct (encode_utf8 password) as [pw|] eqn:Hpw;
    [|unfold hash_password in Hh1; rewrite Hpw in Hh1; discriminate].
  rewrite (hash_password_shape drawn1 password pw Hpw) in Hh1.
  rewrite (hash_password_shape drawn2 password pw Hpw) in Hh2.
  injection Hh1 as <-. injection Hh2 as <-. split.
  - intros Hne Heq. apply Hne.
    apply app_inj_1 in Heq as [Hsalt _];
      [|rewrite !hex_length; lia].
    now apply hex_injective.
  - exists pw. split; [reflexivity|].
    rewrite length_app, hex_length, Hl1. simpl. lia.
Qed.

End Laws.

(** A value with no dollar sign. *)
Lemma verify_password_malformed_witness :
  verify_password toy_kdf (lit "secret") (lit "0a1b2c") = false.
Proof.
  apply (verify_password_malformed toy_kdf). vm_compute. discriminate.
Defined.

(** A candidate against the value stored for another password. *)
Lemma verify_password_recomputes_witness :
  exists hashed,
    hash_password toy_kdf [1; 2; 3] (lit "secret") = Some hashed
    /\ verify_password toy_kdf (lit "Secret") hashed
       = match encode_utf8 (lit "Secret") with
         | Some cand =>
             bool_decide
               (hex (toy_kdf "sha256" cand (hex [1; 2; 3]) 100000)
                = hex (toy_kdf "sha256" (lit "secret") (hex [1; 2; 3]) 100000))
         | None => false
         end.
Proof.
  apply (verify_password_recomputes toy_kdf [1; 2; 3] (lit "secret")
           (lit "Secret") (lit "secret")).
  reflexivity.
Defined.

(** Two draws that differ in their first octet. *)
Lemma hash_password_salted_witness :
  (sample_draw 1 <> sample_draw 2 ->
   hex (sample_draw 1) ++ 36 :: hex (toy_kdf "sha256" (lit "pw") (hex (sample_draw 1)) 100000)
   <> hex (sample_draw 2) ++ 36 :: hex (toy_kdf "sha256" (lit "pw") (hex (sample_draw 2)) 100000))
  /\ exists pw,
       encode_utf8 (lit "pw") = Some pw
       /\ length (hex (sample_draw 1) ++ 36 :: hex (toy_kdf "sha256" (lit "pw") (hex (sample_draw 1)) 100000))
          = (33 + length (hex (toy_kdf "sha256" pw (hex (sample_draw 1)) 100000)))%nat.
Proof.
  apply (hash_password_salted toy_kdf (sample_draw 1) (sample_draw 2) (lit "pw"));
    try reflexivity; unfold octets; repeat constructor; lia.
Defined.

End PasswordLaws.

(** ** More on fingerprints: [st_news_agent_draft_v2.py] *)

Module HammingLaws.
Import PyStr SimHash SimHashOps.

Lemma pos_popcount_pos p : (0 < pos_popcount p)%nat.
Proof. induction p; simpl; lia. Qed.

Lemma popcount_zero x : 0 <= x -> popcount x = 0%nat -> x = 0.
Proof.
  destruct x as [|p|p]; intros Hx Hpop; [reflexivity| |lia].
  simpl in Hpop. pose proof (pos_popcount_pos p). lia.
Qed.

(** On values of [n] bits, more than [n] tests of the loop condition
    suffice, and the loop counts the differing positions. *)
Lemma hamming_distance_returns (n fuel : nat) a b :
  (n < fuel)%nat -> 0 <= a < 2 ^ Z.of_nat n -> 0 <= b < 2 ^ Z.of_nat n ->
  hamming_distance fuel a b = Some (Z.of_nat (popcount (Z.lxor a b)))
  /\ (popcount (Z.lxor a b) <= n)%nat
  /\ Z.of_nat (popcount (Z.lxor a b)) = differing_bits n a b.
Proof.
  intros Hfuel Ha Hb.
  pose proof (SimHashFacts.lxor_range (Z.of_nat n) a b ltac:(lia) Ha Hb) as Hx.
  pose proof (SimHashFacts.popcount_count_bits n _ Hx) as Hpop.
  pose proof (SimHashFacts.count_bits_le n (Z.lxor a b)) as Hle.
  split; [|split].
  - unfold hamming_distance.
    rewrite SimHashFacts.hamming_loop_popcount by lia. reflexivity.
  - lia.
  - now rewrite SimHashFacts.differing_bits_count, Hpop.
Qed.

Lemma filter_length_cover {A} (f g h : A -> bool) (l : list A) :
  (forall x, f x = true -> g x = true \/ h x = true) ->
  (length (List.filter f l)
   <= length (List.filter g l) + length (List.filter h l))%nat.
Proof.
  intros Hcover. induction l as [|x l IH]; simpl; [lia|].
  specialize (Hcover x).
  destruct (f x), (g x), (h x); simpl; try lia.
  all: destruct Hcover; [reflexivity| |]; discriminate.
Qed.

Lemma differing_bits_triangle n a b c :
  differing_bits n a c <= differing_bits n a b + differing_bits n b c.
Proof.
  unfold differing_bits. rewrite <- Nat2Z.inj_add. apply Nat2Z.inj_le.
  apply filter_length_cover. intros i.
  destruct (Z.testbit a (Z.of_nat i)), (Z.testbit b (Z.of_nat i)),
    (Z.testbit c (Z.of_nat i)); simpl; intros H;
    first [discriminate H | now left | now right].
Qed.

Lemma differing_bits_comm n a b : differing_bits n a b = differing_bits n b a.
Proof.
  unfold differing_bits. do 2 f_equal. apply List.filter_ext.
  intros i. apply xorb_comm.
Qed.

Lemma differing_bits_diag n a : differing_bits n a a = 0.
Proof.
  rewrite SimHashFacts.differing_bits_count, Z.lxor_nilpotent.
  unfold count_bits. rewrite (List.filter_ext _ (fun _ => false)).
  - now rewrite List.filter_false.
  - intros i. apply Z.testbit_0_l.
Qed.

(** X4.  On two values of [n] bits, [hamming_distance] returns whatever
    the order of its arguments, with the same number between 0 and [n],
    and that number is 0 exactly when the two values are equal. *)
Theorem hamming_distance_symmetric_separating (n fuel : nat) (a b : Z) :
  (n < fuel)%nat -> 0 <= a < 2 ^ Z.of_nat n -> 0 <= b < 2 ^ Z.of_nat n ->
  exists d,
    hamming_distance fuel a b = Some d
    /\ hamming_distance fuel b a = Some d
    /\ 0 <= d <= Z.of_nat n
    /\ (d = 0 <-> a = b).
Proof.
  intros Hfuel Ha Hb.
  destruct (hamming_distance_returns n fuel a b Hfuel Ha Hb) as [Hab [Hle _]].
  destruct (hamming_distance_returns n fuel b a Hfuel Hb Ha) as [Hba _].
  exists (Z.of_nat (popcount (Z.lxor a b))).
  split; [exact Hab|]. split; [now rewrite Hba, Z.lxor_comm|].
  split; [lia|]. split.
  - intros Hzero. apply Z.lxor_eq, popcount_zero; [|lia].
    apply Z.lxor_nonneg. lia.
  - intros ->. now rewrite Z.lxor_nilpotent.
Qed.

(** X5.  [hamming_distance] obeys the triangle inequality on values of
    [n] bits. *)
Theorem hamming_distance_triangle (n fuel : nat) (a b c : Z) :
  (n < fuel)%nat -> 0 <= a < 2 ^ Z.of_nat n -> 0 <= b < 2 ^ Z.of_nat n ->
  0 <= c < 2 ^ Z.of_nat n ->
  exists dab dbc dac,
    hamming_distance fuel a b = Some dab
    /\ hamming_distance fuel b c = Some dbc
    /\ hamming_distance fuel a c = Some dac
    /\ dac <= dab + dbc.
Proof.
  intros Hfuel Ha Hb Hc.
  destruct (hamming_distance_returns n fuel a b Hfuel Ha Hb) as [Hab [_ Eab]].
  destruct (hamming_distance_returns n fuel b c Hfuel Hb Hc) as [Hbc [_ Ebc]].
  destruct (hamming_distance_returns n fuel a c Hfuel Ha Hc) as [Hac [_ Eac]].
  eexists _, _, _. split; [exact Hab|]. split; [exact Hbc|].
  split; [exact Hac|]. rewrite Eab, Ebc, Eac. apply differing_bits_triangle.
Qed.

Lemma land_pred_negative x : x < 0 -> Z.land x (x - 1) < 0.
Proof. intros Hx. apply Z.land_neg. lia. Qed.

Lemma hamming_loop_negative fuel :
  forall x d, x < 0 -> hamming_loop fuel x d = None.
Proof.
  induction fuel as [|fuel IH]; intros x d Hx; simpl; [reflexivity|].
  destruct (Z.eqb_spec x 0); [lia|]. apply IH. now apply land_pred_negative.
Qed.

(** X6.  When exactly one of the two arguments is negative, the loop of
    [hamming_distance] never ends: its variable stays negative, so no
    number of tests of the condition suffices. *)
Theorem hamming_distance_mixed_signs_diverges (fuel : nat) (a b : Z) :
  (a < 0 <= b) \/ (b < 0 <= a) ->
  hamming_distance fuel a b = None.
Proof.
  intros Hsigns. apply hamming_loop_negative.
  pose proof (Z.lxor_nonneg a b) as Hnn.
  destruct (Z.lt_ge_cases (Z.lxor a b) 0) as [Hlt|Hge]; [exact Hlt|].
  apply Hnn in Hge. lia.
Qed.

Lemma hamming_distance_symmetric_separating_witness :
  exists d,
    hamming_distance 65 5 6 = Some d
    /\ hamming_distance 65 6 5 = Some d
    /\ 0 <= d <= Z.of_nat 64
    /\ (d = 0 <-> 5 = 6).
Proof.
  apply (hamming_distance_symmetric_separating 64 65 5 6);
    [lia|vm_compute; split; [discriminate|reflexivity]..].
Defined.

Lemma hamming_distance_triangle_witness :
  exists dab dbc dac,
    hamming_distance 65 5 6 = Some dab
    /\ hamming_distance 65 6 12 = Some dbc
    /\ hamming_distance 65 5 12 = Some dac
    /\ dac <= dab + dbc.
Proof.
  apply (hamming_distance_triangle 64 65 5 6 12);
    [lia|vm_compute; split; [discriminate|reflexivity]..].
Defined.

Lemma hamming_distance_mixed_signs_diverges_witness :
  hamming_distance 1000 (-1) 5 = None.
Proof.
  apply (hamming_distance_mixed_signs_diverges 1000 (-1) 5). left. lia.
Defined.

End HammingLaws.

Module FingerprintLaws.
Import PyStr SimHash SimHashOps.

(** The test [h & (1 << i)] of the first loop reads bit [i] of [h]. *)
Lemma land_bit h i :
  0 <= i -> (Z.land h (Z.shiftl 1 i) =? 0) = negb (Z.testbit h i).
Proof.
  intros Hi. rewrite Z.shiftl_1_l.
  destruct (Z.testbit h i) eqn:Hbit; simpl.
  - apply Z.eqb_neq. intros Hzero.
    assert (Hi' : Z.testbit (Z.land h (2 ^ i)) i = true)
      by now rewrite Z.land_spec, Hbit, Z.pow2_bits_true.
    rewrite Hzero, Z.bits_0 in Hi'. discriminate.
  - apply Z.eqb_eq, Z.bits_inj'. intros j Hj.
    rewrite Z.land_spec, Z.bits_0, Z.pow2_bits_eqb by lia.
    destruct (Z.eqb_spec i j) as [->|]; [now rewrite Hbit|apply andb_false_r].
Qed.

Lemma vote_nth h (vec : list Z) :
  forall i (j : nat) d, 0 <= i -> (j < length vec)%nat ->
  nth j (vote h i vec) d
  = nth j vec d + (if Z.testbit h (i + Z.of_nat j) then 1 else -1).
Proof.
  induction vec as [|v vec IH]; intros i j d Hi Hj; simpl in Hj; [lia|].
  destruct j as [|j]; cbn [vote nth].
  - rewrite land_bit, negb_involutive, Z.add_0_r by lia.
    destruct (Z.testbit h i); lia.
  - rewrite IH by lia. now replace (i + 1 + Z.of_nat j) with (i + Z.of_nat (S j)) by lia.
Qed.

(** After the first loop, entry [j] holds the votes for bit [j] minus the
    votes against it. *)
Lemma tally_nth (md5_int : pystr -> Z) (tokens : list pystr) :
  forall (vec : list Z) (j : nat), (j < length vec)%nat ->
  nth j (fold_left (fun vec token => vote (md5_int token) 0 vec) tokens vec) 0
  = nth j vec 0 + 2 * Z.of_nat (votes_for md5_int tokens (Z.of_nat j))
    - Z.of_nat (length tokens).
Proof.
  unfold votes_for.
  induction tokens as [|t tokens IH]; intros vec j Hj; cbn [fold_left].
  - simpl. lia.
  - rewrite IH by now rewrite SimHashFacts.vote_length.
    rewrite vote_nth by lia. cbn [List.filter length]. rewrite Z.add_0_l.
    destruct (Z.testbit (md5_int t) (Z.of_nat j)); cbn [length]; lia.
Qed.

Lemma tally_length (md5_int : pystr -> Z) (tokens : list pystr) :
  forall vec : list Z,
  length (fold_left (fun vec token => vote (md5_int token) 0 vec) tokens vec)
  = length vec.
Proof.
  induction tokens as [|t tokens IH]; intros vec; simpl; [reflexivity|].
  now rewrite IH, SimHashFacts.vote_length.
Qed.

(** The second loop sets bit [i + j] exactly when entry [j] is positive,
    and leaves the bits that were set. *)
Lemma set_bits_testbit (vec : list Z) :
  forall i fp k, 0 <= i -> 0 <= k ->
  Z.testbit (set_bits i vec fp) k
  = Z.testbit fp k
    || ((i <=? k) && (k <? i + Z.of_nat (length vec))
        && (0 <? nth (Z.to_nat (k - i)) vec 0)).
Proof.
  induction vec as [|v vec IH]; intros i fp k Hi Hk; cbn [set_bits length].
  - replace (k <? i + Z.of_nat 0) with (negb (i <=? k)) by
      (rewrite Z.add_0_r, Z.leb_antisym, negb_involutive; reflexivity).
    now rewrite andb_negb_r, orb_false_r.
  - rewrite IH by lia.
    assert (Hfp : Z.testbit (if 0 <? v then Z.lor fp (Z.shiftl 1 i) else fp) k
                  = Z.testbit fp k || ((0 <? v) && (i =? k))).
    { destruct (0 <? v); [|now rewrite orb_false_r].
      now rewrite Z.lor_spec, Z.shiftl_1_l, Z.pow2_bits_eqb by lia. }
    rewrite Hfp.
    destruct (Z.eqb_spec i k) as [->|Hne].
    + replace (Z.to_nat (k - k)) with 0%nat by lia. cbn [nth].
      destruct (Z.leb_spec (k + 1) k); [lia|].
      destruct (Z.leb_spec k k); [|lia].
      destruct (Z.ltb_spec k (k + Z.of_nat (S (length vec)))); [|lia].
      now rewrite andb_true_r, !orb_false_r.
    + rewrite andb_false_r, orb_false_r.
      destruct (Z.leb_spec (i + 1) k) as [Hle|Hgt].
      * destruct (Z.leb_spec i k); [|lia].
        replace (Z.to_nat (k - i)) with (S (Z.to_nat (k - (i + 1)))) by lia.
        cbn [nth].
        now replace (i + 1 + Z.of_nat (length vec))
          with (i + Z.of_nat (S (length vec))) by lia.
      * destruct (Z.leb_spec i k); [lia|reflexivity].
Qed.

Lemma votes_for_permutation (md5_int : pystr -> Z) (l1 l2 : list pystr) i :
  l1 ≡ₚ l2 -> votes_for md5_int l1 i = votes_for md5_int l2 i.
Proof.
  unfold votes_for. induction 1 as [|t l1 l2 _ IH|t u l|l1 l2 l3 _ IH1 _ IH2];
    cbn [List.filter].
  - reflexivity.
  - destruct (Z.testbit (md5_int t) i); cbn [length]; now rewrite IH.
  - now destruct (Z.testbit (md5_int t) i), (Z.testbit (md5_int u) i).
  - now rewrite IH1.
Qed.

Section Majority.

Variable lower : pystr -> pystr.
Variable findall_words : pystr -> list pystr.
Variable md5_int : pystr -> Z.

Local Abbreviation calculate_simhash := (calculate_simhash lower findall_words md5_int).

(** The bits of the fingerprint, read off the two loops. *)
Lemma calculate_simhash_testbit (text : pystr) (bit_length : nat) (i : Z) :
  let tokens := findall_words (lower text) in
  Z.testbit (calculate_simhash text bit_length) i
  = (0 <=? i) && (i <? Z.of_nat bit_length)
    && (Z.of_nat (length tokens) <? 2 * Z.of_nat (votes_for md5_int tokens i)).
Proof.
  intros tokens. destruct (Z.leb_spec 0 i) as [Hi|Hi];
    [|now rewrite Z.testbit_neg_r].
  unfold SimHash.calculate_simhash. fold tokens.
  rewrite set_bits_testbit by lia.
  rewrite tally_length, repeat_length, Z.bits_0, Z.add_0_l, Z.sub_0_r.
  cbn [orb andb]. destruct (Z.leb_spec 0 i); [|lia]. cbn [andb].
  destruct (Z.ltb_spec i (Z.of_nat bit_length)) as [Hlt|Hge]; [|reflexivity].
  cbn [andb]. rewrite tally_nth by (rewrite repeat_length; lia).
  rewrite Z2Nat.id by lia.
  rewrite nth_repeat_lt by lia.
  apply eq_true_iff_eq. rewrite !Z.ltb_lt. lia.
Qed.

(** X7.  Bit [i] of the fingerprint is set exactly when [i] is one of the
    [bit_length] lowest positions and the tokens whose hash has bit [i]
    set are strictly more than half of the tokens; a tie leaves the bit
    clear. *)
Theorem calculate_simhash_majority (text : pystr) (bit_length : nat) (i : Z) :
  let tokens := findall_words (lower text) in
  Z.testbit (calculate_simhash text bit_length) i
  = (0 <=? i) && (i <? Z.of_nat bit_length)
    && (Z.of_nat (length tokens) <? 2 * Z.of_nat (votes_for md5_int tokens i)).
Proof. exact (calculate_simhash_testbit text bit_length i). Qed.

(** X8.  The fingerprint does not depend on the order of the tokens: two
    texts whose token lists are permutations of each other have the same
    fingerprint. *)
Theorem calculate_simhash_order_free (text1 text2 : pystr) (bit_length : nat) :
  findall_words (lower text1) ≡ₚ findall_words (lower text2) ->
  calculate_simhash text1 bit_length = calculate_simhash text2 bit_length.
Proof.
  intros Hperm. apply Z.bits_inj. intros i.
  rewrite !calculate_simhash_testbit. cbv zeta.
  now rewrite (Permutation_length Hperm), (votes_for_permutation _ _ _ i Hperm).
Qed.

(** X9.  A text without a token has fingerprint 0, and a text of one
    token has the [bit_length] lowest bits of that token's hash. *)
Theorem calculate_simhash_few_tokens (text : pystr) (bit_length : nat) :
  match findall_words (lower text) with
  | [] => calculate_simhash text bit_length = 0
  | [token] =>
      calculate_simhash text bit_length
      = md5_int token mod 2 ^ Z.of_nat bit_length
  | _ => True
  end.
Proof.
  pose proof (calculate_simhash_testbit text bit_length) as Hbits.
  cbv zeta in Hbits. unfold votes_for in Hbits.
  destruct (findall_words (lower text)) as [|token [|token' tokens]];
    [| |exact I]; apply Z.bits_inj'; intros i Hi; rewrite Hbits.
  - rewrite Z.bits_0. apply andb_false_r.
  - rewrite Z.testbit_mod_pow2 by lia. cbn [List.filter].
    destruct (Z.leb_spec 0 i); [|lia]. cbn [andb].
    destruct (Z.testbit (md5_int token) i), (i <? Z.of_nat bit_length);
      reflexivity.
Qed.

End Majority.

(** With each token hashed to its length, the words of a text in two
    orders. *)
Lemma calculate_simhash_order_free_witness :
  calculate_simhash (fun s => s) (split 32) length_hash (lit "ab cde") 64
  = calculate_simhash (fun s => s) (split 32) length_hash (lit "cde ab") 64.
Proof.
  apply (calculate_simhash_order_free (fun s => s) (split 32) length_hash
           (lit "ab cde") (lit "cde ab") 64).
  vm_compute. apply perm_swap.
Defined.

End FingerprintLaws.

Module DedupLaws.
Import PyStr NormalizeUrl SimHash SimHashOps.

Lemma ForallOrdPairs_snoc {A} (R : A -> A -> Prop) (l : list A) (x : A) :
  ForallOrdPairs R l -> Forall (fun k => R k x) l ->
  ForallOrdPairs R (l ++ [x]).
Proof.
  induction 1 as [|k l Hk _ IH]; intros Hx; simpl.
  - constructor; constructor.
  - apply Forall_cons_1 in Hx as [Hkx Hx]. constructor; [|now apply IH].
    apply Forall_app. split; [exact Hk|]. now constructor.
Qed.

Section Batch.

Variable lower : pystr -> pystr.
Variable findall_words : pystr -> list pystr.
Variable md5_int : pystr -> Z.

Local Abbreviation fingerprint := (fingerprint lower findall_words md5_int).
Local Abbreviation normalized := (normalized lower findall_words md5_int).
Local Abbreviation dedup_from := (dedup_from lower findall_words md5_int).
Local Abbreviation dedup := (dedup lower findall_words md5_int).
Local Abbreviation far_from_all := (far_from_all lower findall_words md5_int).
Local Abbreviation in_step := (in_step lower findall_words md5_int).
Local Abbreviation apart := (apart lower findall_words md5_int).
Local Abbreviation covered := (covered lower findall_words md5_int).

Lemma far_from_all_true kept a :
  far_from_all kept a = true ->
  Forall (fun k => far (fingerprint k) (fingerprint a)) kept.
Proof.
  unfold SimHash.far_from_all. rewrite forallb_forall. intros Hfar.
  apply List.Forall_forall. intros k Hk. unfold far.
  rewrite HammingLaws.differing_bits_comm. apply Z.leb_le, Hfar, Hk.
Qed.

Lemma far_from_all_false kept a :
  far_from_all kept a = false -> covered kept a.
Proof.
  unfold SimHash.far_from_all, SimHashOps.covered. induction kept as [|k kept IH]; simpl;
    [discriminate|].
  destruct (Z.leb_spec 3 (differing_bits 64 (fingerprint a) (fingerprint k)));
    simpl; intros Hrest; [right; now apply IH|now left].
Qed.

Lemma covered_more kept added a : covered kept a -> covered (kept ++ added) a.
Proof. intros H. apply Exists_app. now left. Qed.

Lemma apart_distinct kept : apart kept -> NoDup (List.map fingerprint kept).
Proof.
  induction 1 as [|k kept Hk _ IH]; simpl; constructor; [|exact IH].
  intros Hin. apply list_elem_of_In, in_map_iff in Hin as [k' [Heq Hin]].
  apply (proj1 (List.Forall_forall _ _) Hk) in Hin. unfold far in Hin.
  rewrite Heq, HammingLaws.differing_bits_diag in Hin. lia.
Qed.

(** What the loop of step 2 keeps true, from any state in which
    [seen_hashes] are the fingerprints of [normalized_articles]. *)
Lemma dedup_from_invariant fuel (batch : list Article) :
  (64 < fuel)%nat ->
  forall st, in_step st ->
  exists st' added,
    dedup_from fuel st batch = Some st'
    /\ st'.2 = st.2 ++ added
    /\ sublist added (List.map normalized batch)
    /\ (apart st.2 -> apart st'.2)
    /\ Forall (covered st'.2) batch
    /\ (st.2 = [] -> head st'.2 = head (List.map normalized batch)).
Proof.
  intros Hfuel. induction batch as [|a batch IH]; intros st Hst.
  - exists st, []. rewrite app_nil_r.
    repeat split; try constructor; try tauto. now intros ->.
  - pose proof (SimHashFacts.dedup_step_rule lower findall_words md5_int
                  fuel st a Hfuel Hst) as Hrule.
    pose proof (SimHashFacts.dedup_step_in_step lower findall_words md5_int
                  fuel st a _ Hfuel Hst Hrule) as Hst1.
    cbn [SimHash.dedup_from]. rewrite Hrule.
    destruct (IH _ Hst1) as [st' [added [Hrun [Hkept [Hsub [Hap [Hcov Hhd]]]]]]].
    destruct (far_from_all st.2 a) eqn:Hfar; cbn [snd] in *.
    + exists st', (normalized a :: added). rewrite Hrun.
      split; [reflexivity|]. split; [now rewrite Hkept, <- app_assoc|].
      split; [now apply sublist_skip|]. split; [|split].
      * intros H. apply Hap, ForallOrdPairs_snoc; [exact H|].
        now apply far_from_all_true.
      * constructor; [|exact Hcov]. rewrite Hkept. apply covered_more.
        apply Exists_app. right. left. unfold near.
        rewrite HammingLaws.differing_bits_diag. lia.
      * intros Hnil. now rewrite Hkept, Hnil.
    + exists st', added. rewrite Hrun.
      split; [reflexivity|]. split; [exact Hkept|].
      split; [now apply sublist_cons|]. split; [exact Hap|]. split.
      * constructor; [|exact Hcov]. rewrite Hkept.
        now apply covered_more, far_from_all_false.
      * intros Hnil. rewrite Hnil in Hfar. discriminate.
Qed.

(** X10.  Step 2 of the pipeline returns, and what it keeps is the
    normalised batch with some articles left out, in the order of the
    batch and beginning with its first article; any two kept articles have
    fingerprints 3 or more positions apart, so no fingerprint is kept
    twice. *)
Theorem dedup_keeps_apart (fuel : nat) (batch : list Article) :
  (64 < fuel)%nat ->
  exists seen kept,
    dedup fuel batch = Some (seen, kept)
    /\ sublist kept (List.map normalized batch)
    /\ (length kept <= length batch)%nat
    /\ head kept = head (List.map normalized batch)
    /\ apart kept
    /\ NoDup (List.map fingerprint kept).
Proof.
  intros Hfuel.
  destruct (dedup_from_invariant fuel batch Hfuel (∅, []) eq_refl)
    as [[seen kept] [added [Hrun [Hkept [Hsub [Hap [_ Hhd]]]]]]].
  cbn [snd app] in *. subst added. exists seen, kept.
  assert (Hapart : apart kept) by (apply Hap; constructor).
  split; [exact Hrun|]. split; [exact Hsub|]. split.
  - apply sublist_length in Hsub. now rewrite length_map in Hsub.
  - split; [now apply Hhd|]. split; [exact Hapart|now apply apart_distinct].
Qed.

(** X11.  Nothing is dropped without cause: every article of the batch
    has a fingerprint closer than 3 to the fingerprint of an article that
    step 2 kept. *)
Theorem dedup_covers_batch (fuel : nat) (batch : list Article) :
  (64 < fuel)%nat ->
  exists seen kept,
    dedup fuel batch = Some (seen, kept)
    /\ Forall (covered kept) batch.
Proof.
  intros Hfuel.
  destruct (dedup_from_invariant fuel batch Hfuel (∅, []) eq_refl)
    as [[seen kept] [added [Hrun [_ [_ [_ [Hcov _]]]]]]].
  now exists seen, kept.
Qed.

End Batch.

Lemma dedup_keeps_apart_witness :
  exists seen kept,
    dedup ascii_lower one_token length_hash 65 sample_batch = Some (seen, kept)
    /\ sublist kept
         (List.map (normalized ascii_lower one_token length_hash) sample_batch)
    /\ (length kept <= length sample_batch)%nat
    /\ head kept
       = head (List.map (normalized ascii_lower one_token length_hash)
                 sample_batch)
    /\ apart ascii_lower one_token length_hash kept
    /\ NoDup (List.map (fingerprint ascii_lower one_token length_hash) kept).
Proof.
  apply (dedup_keeps_apart ascii_lower one_token length_hash 65 sample_batch).
  lia.
Defined.

Lemma dedup_covers_batch_witness :
  exists seen kept,
    dedup ascii_lower one_token length_hash 65 sample_batch = Some (seen, kept)
    /\ Forall (covered ascii_lower one_token length_hash kept) sample_batch.
Proof.
  apply (dedup_covers_batch ascii_lower one_token length_hash 65 sample_batch).
  lia.
Defined.

End DedupLaws.

(** ** The store of draft v2 *)

Module ArticleStoreLaws.
Import PyStr ArticleStore.

Section Laws.

Variable record : Type.
Variable url : record -> pystr.

Local Abbreviation upsert_step := (upsert_step record url).
Local Abbreviation upsert_articles_to_db := (upsert_articles_to_db record url).
Local Abbreviation urls := (urls record url).

Lemma find_url_none (rows : list record) (article : record) :
  List.find (fun a => bool_decide (url a = url article)) rows = None ->
  url article ∉ urls rows.
Proof.
  intros Hnone Hin.
  apply list_elem_of_In, in_map_iff in Hin as [a [Heq Hin]].
  apply (List.find_none _ _ Hnone) in Hin.
  now apply bool_decide_eq_false in Hin.
Qed.

Lemma find_url_some (rows : list record) (article a : record) :
  List.find (fun a => bool_decide (url a = url article)) rows = Some a ->
  url article ∈ urls rows.
Proof.
  intros [Hin Heq]%List.find_some. apply bool_decide_eq_true in Heq.
  rewrite <- Heq. apply list_elem_of_In, in_map, Hin.
Qed.

Lemma find_url_stored (rows : list record) (article : record) :
  url article ∈ urls rows ->
  exists a, List.find (fun a => bool_decide (url a = url article)) rows = Some a.
Proof.
  intros Hin.
  destruct (List.find _ rows) as [a|] eqn:Hfind; [now exists a|].
  now apply find_url_none in Hfind.
Qed.

(** What the loop does to [(db_articles, inserted)]. *)
Lemma upsert_loop (articles : list record) :
  forall (rows : list record) (n : Z),
  exists added,
    fold_left upsert_step articles (rows, n)
    = (rows ++ added, n + Z.of_nat (length added))
    /\ sublist added articles
    /\ (NoDup (urls rows) -> NoDup (urls (rows ++ added)))
    /\ Forall (fun a => url a ∈ urls (rows ++ added)) articles
    /\ Forall (fun a => url a ∉ urls rows) added.
Proof.
  induction articles as [|article articles IH]; intros rows n.
  - exists []. rewrite app_nil_r, Z.add_0_r.
    repeat split; try constructor; tauto.
  - cbn [fold_left]. unfold ArticleStore.upsert_step at 2. cbn [fst snd].
    destruct (List.find _ rows) as [a|] eqn:Hfind.
    + destruct (IH rows n) as [added [Hrun [Hsub [Hnd [Hall Hnew]]]]].
      exists added. rewrite Hrun. split; [reflexivity|].
      split; [now apply sublist_cons|]. split; [exact Hnd|].
      split; [|exact Hnew]. constructor; [|exact Hall].
      unfold ArticleStore.urls. rewrite List.map_app.
      apply elem_of_app. left. exact (find_url_some _ _ _ Hfind).
    + apply find_url_none in Hfind.
      destruct (IH (rows ++ [article]) (n + 1))
        as [added [Hrun [Hsub [Hnd [Hall Hnew]]]]].
      exists (article :: added). rewrite Hrun, <- app_assoc. cbn [app length].
      split; [f_equal; lia|]. split; [now apply sublist_skip|].
      rewrite <- app_assoc in Hnd, Hall. cbn [app] in Hnd, Hall.
      split; [|split].
      * intros Hrows. apply Hnd. unfold ArticleStore.urls.
        rewrite List.map_app. cbn [List.map].
        apply NoDup_app. split; [exact Hrows|]. split.
        -- intros u Hu [->|Hin]%elem_of_cons; [exact (Hfind Hu)|].
           now apply elem_of_nil in Hin.
        -- apply NoDup_singleton.
      * constructor; [|exact Hall]. unfold ArticleStore.urls.
        rewrite List.map_app. cbn [List.map].
        apply elem_of_app. right. apply elem_of_cons. now left.
      * constructor; [exact Hfind|].
        apply (List.Forall_impl _ (P := fun a => url a ∉ urls (rows ++ [article])));
          [|exact Hnew].
        intros a Ha Hin. apply Ha. unfold ArticleStore.urls.
        rewrite List.map_app. apply elem_of_app. now left.
Qed.

(** X12.  [upsert_articles_to_db] only appends: the rows already stored
    stay first and unchanged, the rows added are articles of the call in
    their order, each with a URL that was not stored, the returned count is
    their number, and URLs that were pairwise different stay so. *)
Theorem upsert_only_appends (articles : list record)
  (db_articles : option (list record)) :
  let before := default [] db_articles in
  exists added,
    upsert_articles_to_db articles db_articles
    = (before ++ added, Z.of_nat (length added))
    /\ sublist added articles
    /\ Forall (fun a => url a ∉ urls before) added
    /\ (NoDup (urls before) -> NoDup (urls (before ++ added))).
Proof.
  intros before.
  destruct (upsert_loop articles before 0)
    as [added [Hrun [Hsub [Hnd [_ Hnew]]]]].
  exists added. split; [|now repeat split].
  unfold ArticleStore.upsert_articles_to_db.
  now destruct db_articles.
Qed.

Lemma upsert_all_stored (articles rows : list record) :
  Forall (fun a => url a ∈ urls rows) articles ->
  upsert_articles_to_db articles (Some rows) = (rows, 0).
Proof.
  unfold ArticleStore.upsert_articles_to_db.
  induction 1 as [|article articles Hin _ IH]; [reflexivity|].
  cbn [fold_left]. unfold ArticleStore.upsert_step at 2. cbn [fst snd].
  destruct (find_url_stored rows article Hin) as [a ->]. exact IH.
Qed.

(** X13.  Articles whose URLs are all stored change nothing and count 0,
    whatever else they hold: a stored row is never updated. *)
Theorem upsert_never_updates (articles rows : list record) :
  Forall (fun a => url a ∈ urls rows) articles ->
  upsert_articles_to_db articles (Some rows) = (rows, 0).
Proof. exact (upsert_all_stored articles rows). Qed.

(** X14.  After a call every article of the call has its URL stored, so
    that the same call once more adds nothing and returns 0. *)
Theorem upsert_twice (articles : list record)
  (db_articles : option (list record)) :
  let after := (upsert_articles_to_db articles db_articles).1 in
  Forall (fun a => url a ∈ urls after) articles
  /\ upsert_articles_to_db articles (Some after) = (after, 0).
Proof.
  intros after.
  assert (Hall : Forall (fun a => url a ∈ urls after) articles).
  { unfold after, ArticleStore.upsert_articles_to_db.
    destruct (upsert_loop articles (default [] db_articles) 0)
      as [added [Hrun [_ [_ [Hall _]]]]].
    destruct db_articles as [rows|].
    - change (default [] (Some rows)) with rows in Hrun. now rewrite Hrun.
    - change (default [] None) with (@nil record) in Hrun. now rewrite Hrun. }
  split; [exact Hall|]. now apply upsert_all_stored.
Qed.

End Laws.

(** The same URL under another title. *)
Lemma upsert_never_updates_witness :
  upsert_articles_to_db SimHash.Article SimHash.url
    [SimHash.sample_article "new title"] (Some [SimHash.sample_article "old"])
  = ([SimHash.sample_article "old"], 0).
Proof.
  apply (upsert_never_updates SimHash.Article SimHash.url).
  repeat constructor.
Defined.

End ArticleStoreLaws.

(** ** Draft v1: exact-match deduplication *)

Module DraftV1Laws.
Import PyStr DraftV1.

Section Dedup.

Variable md5_hexdigest : bytes -> pystr.

Local Abbreviation generate_simhash := (generate_simhash md5_hexdigest).
Local Abbreviation deduplicate_loop := (deduplicate_loop md5_hexdigest).
Local Abbreviation deduplicate_articles := (deduplicate_articles md5_hexdigest).
Local Abbreviation stamped := (stamped md5_hexdigest).
Local Abbreviation hash_of := (hash_of md5_hexdigest).

Lemma hashes_app (l1 l2 : list RssArticle) :
  hashes (l1 ++ l2) = hashes l1 ++ hashes l2.
Proof. apply omap_app. Qed.

(** What the loop keeps true. *)
Lemma deduplicate_loop_invariant (articles : list RssArticle) :
  forall unique seen kept,
  deduplicate_loop articles unique seen = Some kept ->
  exists added,
    kept = unique ++ added
    /\ sublist (Some <$> added) (stamped <$> articles)
    /\ NoDup (hashes added)
    /\ Forall (fun h => h ∉ seen) (hashes added)
    /\ Forall (fun a => exists h, hash_of a = Some h
                                  /\ (h ∈ seen \/ h ∈ hashes added))
         articles.
Proof.
  induction articles as [|a articles IH]; intros unique seen kept Hrun.
  - injection Hrun as <-. exists []. rewrite app_nil_r.
    repeat split; constructor.
  - cbn [DraftV1.deduplicate_loop] in Hrun.
    unfold DraftV1.stamped, DraftV1.hash_of. cbn [fmap list_fmap].
    destruct (generate_simhash (title a ++ url a)) as [h|] eqn:Hh;
      [|discriminate].
    destruct (bool_decide_reflect (h ∉ seen)) as [Hnew|Hold].
    + apply IH in Hrun as [added [-> [Hsub [Hnd [Hfresh Hall]]]]].
      exists (set_simhash h a :: added). rewrite <- app_assoc.
      split; [reflexivity|]. split; [now apply sublist_skip|].
      cbn [hashes omap list_omap simhash set_simhash]. split; [|split].
      * apply NoDup_cons. split; [|exact Hnd].
        intros Hin. apply (proj1 (Forall_forall _ _) Hfresh) in Hin.
        set_solver.
      * constructor; [exact Hnew|].
        apply (Forall_impl _ _ _ Hfresh). set_solver.
      * constructor.
        -- exists h. split; [exact Hh|]. right. apply elem_of_cons. now left.
        -- apply (Forall_impl _ _ _ Hall).
           intros b [hb [Hb [Hin|Hin]]]; exists hb; (split; [exact Hb|]).
           ++ apply elem_of_union in Hin as [->%elem_of_singleton|Hin];
                [right; apply elem_of_cons; now left|now left].
           ++ right. apply elem_of_cons. now right.
    + apply dec_stable in Hold.
      apply IH in Hrun as [added [-> [Hsub [Hnd [Hfresh Hall]]]]].
      exists added. split; [reflexivity|]. split; [now apply sublist_cons|].
      split; [exact Hnd|]. split; [exact Hfresh|].
      constructor; [|exact Hall]. exists h. split; [exact Hh|now left].
Qed.

Lemma deduplicate_loop_returns (articles : list RssArticle) :
  Forall (fun a => is_text (title a ++ url a)) articles ->
  forall unique seen, is_Some (deduplicate_loop articles unique seen).
Proof.
  induction 1 as [|a articles Ha _ IH]; intros unique seen;
    cbn [DraftV1.deduplicate_loop]; [eauto|].
  unfold DraftV1.generate_simhash.
  destruct (PasswordFacts.encode_utf8_text _ Ha) as [b ->].
  destruct (bool_decide _); apply IH.
Qed.

(** X15.  On articles whose title and URL are text,
    [deduplicate_articles] returns; what it returns are articles of the
    call, in their order, each carrying its hash; the hashes returned are
    pairwise different and none was in [existing_hashes]; and every article
    of the call has its hash either in [existing_hashes] or among the
    hashes returned. *)
Theorem deduplicate_articles_exact (articles : list RssArticle)
  (existing_hashes : gset pystr) :
  Forall (fun a => is_text (title a ++ url a)) articles ->
  exists kept,
    deduplicate_articles articles existing_hashes = Some kept
    /\ sublist (Some <$> kept) (stamped <$> articles)
    /\ NoDup (hashes kept)
    /\ Forall (fun h => h ∉ existing_hashes) (hashes kept)
    /\ Forall (fun a => exists h, hash_of a = Some h
                                  /\ (h ∈ existing_hashes \/ h ∈ hashes kept))
         articles.
Proof.
  intros Htext.
  destruct (deduplicate_loop_returns articles Htext [] existing_hashes)
    as [kept Hrun].
  exists kept. split; [exact Hrun|].
  apply deduplicate_loop_invariant in Hrun as [added [-> Hinv]].
  exact Hinv.
Qed.

(** The loop, when every hash of the call is already seen. *)
Lemma deduplicate_loop_all_seen (articles : list RssArticle) :
  forall unique seen,
  Forall (fun a => exists h, hash_of a = Some h /\ h ∈ seen) articles ->
  deduplicate_loop articles unique seen = Some unique.
Proof.
  induction articles as [|a articles IH]; intros unique seen Hall;
    [reflexivity|].
  apply Forall_cons_1 in Hall as [[h [Hh Hin]] Hall].
  cbn [DraftV1.deduplicate_loop]. unfold DraftV1.hash_of in Hh. rewrite Hh.
  rewrite bool_decide_eq_false_2 by (intros Hn; exact (Hn Hin)).
  now apply IH.
Qed.

(** X16.  Once the hashes a call returned have joined
    [existing_hashes], the same call returns the empty list. *)
Theorem deduplicate_articles_second_run (articles kept : list RssArticle)
  (existing_hashes : gset pystr) :
  deduplicate_articles articles existing_hashes = Some kept ->
  deduplicate_articles articles
    (existing_hashes ∪ list_to_set (hashes kept)) = Some [].
Proof.
  intros Hrun.
  apply deduplicate_loop_invariant in Hrun as [added [-> [_ [_ [_ Hall]]]]].
  apply deduplicate_loop_all_seen.
  apply (Forall_impl _ _ _ Hall). intros a [h [Hh Hin]].
  exists h. split; [exact Hh|].
  rewrite elem_of_union, elem_of_list_to_set. exact Hin.
Qed.

End Dedup.

Lemma deduplicate_articles_exact_witness :
  exists kept,
    deduplicate_articles toy_digest sample_feed ∅ = Some kept
    /\ sublist (Some <$> kept) (stamped toy_digest <$> sample_feed)
    /\ NoDup (hashes kept)
    /\ Forall (fun h => h ∉ (∅ : gset pystr)) (hashes kept)
    /\ Forall (fun a => exists h, hash_of toy_digest a = Some h
                                  /\ (h ∈ (∅ : gset pystr) \/ h ∈ hashes kept))
         sample_feed.
Proof.
  apply (deduplicate_articles_exact toy_digest sample_feed ∅).
  repeat constructor; vm_compute; reflexivity.
Defined.

Lemma deduplicate_articles_second_run_witness :
  deduplicate_articles toy_digest sample_feed
    (∅ ∪ list_to_set
           (hashes [set_simhash (take 16 (toy_digest (lit "onehttps://example.com/a")))
                      (sample_entry "one");
                    set_simhash (take 16 (toy_digest (lit "twohttps://example.com/a")))
                      (sample_entry "two")]))
  = Some [].
Proof.
  apply (deduplicate_articles_second_run toy_digest sample_feed _ ∅).
  vm_compute. reflexivity.
Defined.

End DraftV1Laws.

(** ** Draft v1: [extract_text_from_html] *)

Module ExtractTextLaws.
Import PyStr DraftV1.

(** *** Stripping *)

Lemma lstrip_split (s : pystr) :
  exists ws, s = ws ++ lstrip s /\ Forall (fun c => isspace c = true) ws.
Proof.
  induction s as [|c s [ws [Hs Hws]]]; [now exists []|]. simpl.
  destruct (isspace c) eqn:Hc.
  - exists (c :: ws). split; [simpl; now rewrite <- Hs|now constructor].
  - now exists [].
Qed.

Lemma lstrip_fixed (c : Z) (s : pystr) :
  isspace c = false -> lstrip (c :: s) = c :: s.
Proof. intros Hc. simpl. now rewrite Hc. Qed.

Lemma lstrip_head (s : pystr) :
  match lstrip s with
  | c :: _ => isspace c = false
  | [] => True
  end.
Proof.
  induction s as [|c s IH]; simpl; [exact I|].
  destruct (isspace c) eqn:Hc; [exact IH|exact Hc].
Qed.

Lemma lstrip_lstrip (s : pystr) : lstrip (lstrip s) = lstrip s.
Proof.
  pose proof (lstrip_head s) as Hhead.
  destruct (lstrip s) as [|c r]; [reflexivity|now apply lstrip_fixed].
Qed.

Lemma rstrip_split (s : pystr) :
  exists ws, s = rstrip s ++ ws /\ Forall (fun c => isspace c = true) ws.
Proof.
  destruct (lstrip_split (rev s)) as [ws [Hs Hws]].
  exists (rev ws). split; [|now apply Forall_rev].
  unfold rstrip. rewrite <- rev_app_distr, <- Hs. symmetry. apply rev_involutive.
Qed.

Lemma rstrip_rstrip (s : pystr) : rstrip (rstrip s) = rstrip s.
Proof. unfold rstrip. now rewrite rev_involutive, lstrip_lstrip. Qed.

Lemma strip_fixed (s : pystr) :
  lstrip (strip s) = strip s /\ rstrip (strip s) = strip s.
Proof.
  unfold strip. split; [|apply rstrip_rstrip].
  pose proof (lstrip_head s) as Hhead.
  destruct (rstrip_split (lstrip s)) as [ws [Hs _]].
  destruct (rstrip (lstrip s)) as [|c r]; [reflexivity|].
  rewrite Hs in Hhead. now apply lstrip_fixed.
Qed.

(** *** Whitespace *)

Lemma tidy_sub_spaces (s : pystr) :
  forall b, tidy b (sub_spaces b s) = true.
Proof.
  induction s as [|c s IH]; intros b; simpl; [reflexivity|].
  destruct (isspace c) eqn:Hc.
  - destruct b; [apply IH|]. cbn [tidy]. now rewrite IH.
  - cbn [tidy]. rewrite Hc. apply IH.
Qed.

Lemma tidy_fixed (s : pystr) :
  forall b, tidy b s = true -> sub_spaces b s = s.
Proof.
  induction s as [|c s IH]; intros b; simpl; [reflexivity|].
  destruct (isspace c).
  - destruct b; [discriminate|]. simpl.
    intros [Hc Hs]%andb_true_iff. apply Z.eqb_eq in Hc. subst c.
    now rewrite IH.
  - intros Hs. now rewrite IH.
Qed.

Lemma tidy_weaken (s : pystr) : forall b, tidy b s = true -> tidy false s = true.
Proof.
  destruct s as [|c s]; intros b; simpl; [reflexivity|].
  destruct (isspace c); [|tauto]. now destruct b.
Qed.

Lemma tidy_lstrip (s : pystr) :
  forall b, tidy b s = true -> tidy false (lstrip s) = true.
Proof.
  induction s as [|c s IH]; intros b; simpl; [reflexivity|].
  destruct (isspace c) eqn:Hc.
  - intros [_ Hs]%andb_true_iff. now apply (IH true).
  - intros Hs. simpl. now rewrite Hc.
Qed.

Lemma tidy_app_l (p q : pystr) :
  forall b, tidy b (p ++ q) = true -> tidy b p = true.
Proof.
  induction p as [|c p IH]; intros b; simpl; [reflexivity|].
  destruct (isspace c); [|apply IH].
  intros [Hc Hs]%andb_true_iff. rewrite Hc. now apply IH.
Qed.

Lemma tidy_strip (s : pystr) : tidy false s = true -> tidy false (strip s) = true.
Proof.
  intros Hs. apply tidy_lstrip in Hs. unfold strip.
  destruct (rstrip_split (lstrip s)) as [ws [Hsplit _]].
  rewrite Hsplit in Hs. now apply tidy_app_l in Hs.
Qed.

Lemma single_spaced_cons c d (s : pystr) :
  single_spaced (c :: d :: s)
  = negb (isspace c && isspace d) && single_spaced (d :: s).
Proof. reflexivity. Qed.

Lemma tidy_spaces (s : pystr) :
  forall b, tidy b s = true ->
  Forall (fun c => isspace c = true -> c = 32) s /\ single_spaced s = true.
Proof.
  induction s as [|c s IH]; intros b Hs; [split; [constructor|reflexivity]|].
  cbn [tidy] in Hs. destruct (isspace c) eqn:Hc.
  - apply andb_true_iff in Hs as [Hc' Hs]. apply andb_true_iff in Hc' as [_ Hc'].
    apply Z.eqb_eq in Hc'. destruct (IH true Hs) as [Hall Hsingle].
    split; [now constructor|]. destruct s as [|d s]; [reflexivity|].
    rewrite single_spaced_cons, Hc, Hsingle. cbn [tidy] in Hs.
    destruct (isspace d); [discriminate|reflexivity].
  - destruct (IH false Hs) as [Hall Hsingle].
    split; [constructor; [congruence|exact Hall]|].
    destruct s as [|d s]; [reflexivity|].
    now rewrite single_spaced_cons, Hc, Hsingle.
Qed.

(** *** Tags *)

Local Abbreviation closes := (existsb (fun d => d =? 62)).

Lemma sub_tags_closes (s : pystr) :
  forall b, closes (sub_tags b s) = true -> closes s = true.
Proof.
  induction s as [|c s IH]; intros b; [destruct b; discriminate|].
  cbn [sub_tags existsb]. destruct b.
  - destruct (c =? 62); [reflexivity|]. apply IH.
  - destruct (_ && _ && _).
    + intros H. apply IH in H. rewrite H. apply orb_true_r.
    + cbn [existsb]. destruct (c =? 62); [reflexivity|]. apply IH.
Qed.

Lemma sub_spaces_closes (s : pystr) :
  forall b, closes (sub_spaces b s) = true -> closes s = true.
Proof.
  induction s as [|c s IH]; intros b; [discriminate|].
  cbn [sub_spaces existsb]. destruct (isspace c).
  - destruct b; [|cbn [existsb]; change (32 =? 62) with false; cbn [orb]];
      intros H; apply IH in H; rewrite H; apply orb_true_r.
  - cbn [existsb]. destruct (c =? 62); [reflexivity|]. apply IH.
Qed.

Lemma inert_fixed (s : pystr) : inert s = true -> sub_tags false s = s.
Proof.
  induction s as [|c s IH]; [reflexivity|]. cbn [inert sub_tags].
  intros [Hc Hs]%andb_true_iff. rewrite (IH Hs).
  destruct (c =? 60); [|reflexivity]. cbn [negb orb andb] in *.
  destruct s as [|d s]; [reflexivity|].
  destruct (d =? 62); [reflexivity|]. cbn [negb orb andb] in *.
  apply negb_true_iff in Hc. now rewrite Hc.
Qed.

Lemma sub_tags_inert (s : pystr) : forall b, inert (sub_tags b s) = true.
Proof.
  induction s as [|c s IH]; intros b; [now destruct b|].
  cbn [sub_tags]. destruct b.
  - destruct (c =? 62); [|apply IH]. cbn [inert]. rewrite IH.
    change (32 =? 60) with false. reflexivity.
  - destruct (_ && _ && _) eqn:Hmatch; [apply IH|].
    cbn [inert]. rewrite IH, andb_true_r.
    destruct (c =? 60); [|reflexivity]. cbn [negb orb andb] in *.
    destruct s as [|d s]; [reflexivity|].
    destruct (Z.eqb_spec d 62) as [->|Hd].
    + change (sub_tags false (62 :: s)) with (62 :: sub_tags false s).
      reflexivity.
    + cbn [negb andb] in Hmatch.
      destruct (closes (sub_tags false (d :: s))) eqn:Hout;
        [|now rewrite orb_true_r].
      apply sub_tags_closes in Hout. congruence.
Qed.

Lemma inert_sub_spaces (s : pystr) :
  forall b, inert s = true -> inert (sub_spaces b s) = true.
Proof.
  induction s as [|c s IH]; intros b; [reflexivity|].
  cbn [inert sub_spaces]. intros [Hc Hs]%andb_true_iff.
  destruct (isspace c) eqn:Hspace.
  - destruct b; [now apply IH|]. cbn [inert]. rewrite (IH true Hs).
    change (32 =? 60) with false. reflexivity.
  - cbn [inert]. rewrite (IH false Hs), andb_true_r.
    destruct (Z.eqb_spec c 60) as [->|]; [|reflexivity].
    cbn [negb orb] in *. destruct s as [|d s]; [reflexivity|].
    destruct (Z.eqb_spec d 62) as [->|Hd].
    + cbn [sub_spaces]. change (isspace 62) with false. reflexivity.
    + cbn [orb] in Hc. apply negb_true_iff in Hc.
      destruct (closes (sub_spaces false (d :: s))) eqn:Hout;
        [|now rewrite orb_true_r].
      apply sub_spaces_closes in Hout. congruence.
Qed.

Lemma inert_tail (ws s : pystr) : inert (ws ++ s) = true -> inert s = true.
Proof.
  induction ws as [|c ws IH]; [tauto|]. cbn [app inert].
  intros [_ Hs]%andb_true_iff. now apply IH.
Qed.

Lemma closes_app (p q : pystr) : closes p = true -> closes (p ++ q) = true.
Proof. intros H. rewrite existsb_app, H. reflexivity. Qed.

Lemma inert_front (p ws : pystr) :
  Forall (fun c => isspace c = true) ws ->
  inert (p ++ ws) = true -> inert p = true.
Proof.
  intros Hws. induction p as [|c p IH]; [reflexivity|]. cbn [app inert].
  intros [Hc Hs]%andb_true_iff. rewrite (IH Hs), andb_true_r.
  destruct (c =? 60); [|reflexivity]. cbn [negb orb] in *.
  destruct p as [|d p].
  - reflexivity.
  - cbn [app] in Hc. destruct (d =? 62); [reflexivity|]. cbn [orb] in *.
    apply negb_true_iff in Hc. apply negb_true_iff.
    destruct (closes (d :: p)) eqn:Hp; [|reflexivity].
    apply (closes_app _ ws) in Hp. cbn [app] in Hp. congruence.
Qed.

Lemma inert_strip (s : pystr) : inert s = true -> inert (strip s) = true.
Proof.
  intros Hs. unfold strip.
  destruct (lstrip_split s) as [ws [Hsplit _]]. rewrite Hsplit in Hs.
  apply inert_tail in Hs.
  destruct (rstrip_split (lstrip s)) as [ws' [Hsplit' Hws']].
  rewrite Hsplit' in Hs. now apply inert_front in Hs.
Qed.

(** X17.  The text [extract_text_from_html] returns holds no match of the
    tag pattern; its only whitespace characters are spaces, no two of them
    in a row; and it neither begins nor ends with one. *)
Theorem extract_text_normal_form (html_content : pystr) :
  let text := extract_text_from_html html_content in
  sub_tags false text = text
  /\ Forall (fun c => isspace c = true -> c = 32) text
  /\ single_spaced text = true
  /\ lstrip text = text
  /\ rstrip text = text.
Proof.
  intros text. unfold text, extract_text_from_html.
  assert (Htidy : tidy false
            (strip (sub_spaces false (sub_tags false html_content))) = true)
    by apply tidy_strip, tidy_sub_spaces.
  split.
  - apply inert_fixed, inert_strip, inert_sub_spaces, sub_tags_inert.
  - destruct (tidy_spaces _ _ Htidy) as [Hall Hsingle].
    split; [exact Hall|]. split; [exact Hsingle|]. apply strip_fixed.
Qed.

(** X18.  [extract_text_from_html] changes nothing in a text it has
    returned. *)
Theorem extract_text_idempotent (html_content : pystr) :
  extract_text_from_html (extract_text_from_html html_content)
  = extract_text_from_html html_content.
Proof.
  unfold extract_text_from_html at 1.
  set (text := extract_text_from_html html_content).
  assert (Hinert : inert text = true)
    by apply inert_strip, inert_sub_spaces, sub_tags_inert.
  assert (Htidy : tidy false text = true)
    by apply tidy_strip, tidy_sub_spaces.
  rewrite (inert_fixed _ Hinert), (tidy_fixed _ _ Htidy).
  unfold text, extract_text_from_html, strip at 1.
  destruct (strip_fixed (sub_spaces false (sub_tags false html_content)))
    as [Hl Hr].
  now rewrite Hl, Hr.
Qed.

End ExtractTextLaws.

(** ** More of the session router *)

Module SessionLaws.
Import Sessions SessionOps.

#[global] Instance newer_first_total {A} (stamp : A -> Z) :
  Total (newer_first stamp).
Proof. intros a b. unfold newer_first. lia. Qed.

#[global] Instance newer_first_transitive {A} (stamp : A -> Z) :
  Transitive (newer_first stamp).
Proof. intros a b c. unfold newer_first. lia. Qed.

Lemma first_by_token_None (db : gmap Z Session) (token : string) :
  first_by_token token db = None ->
  forall i s, db !! i = Some s -> session_token s <> token.
Proof.
  intros Hnone i s Hget Htok.
  assert (Hin : In (i, s) (map_to_list db))
    by now apply list_elem_of_In, elem_of_map_to_list.
  apply (find_none _ _ Hnone) in Hin.
  now apply bool_decide_eq_false in Hin.
Qed.

Lemma unique_tokens_insert (db : gmap Z Session) (id : Z) (s : Session) :
  unique_tokens db ->
  (forall i si, db !! i = Some si -> i <> id ->
                session_token si <> session_token s) ->
  unique_tokens (<[id := s]> db).
Proof.
  intros Huniq Hother i j si sj Hi Hj Htok.
  destruct (decide (i = id)) as [->|Hi'], (decide (j = id)) as [->|Hj'];
    [reflexivity| | |].
  - rewrite lookup_insert_eq in Hi. injection Hi as <-.
    rewrite lookup_insert_ne in Hj by congruence.
    now destruct (Hother j sj Hj Hj').
  - rewrite lookup_insert_eq in Hj. injection Hj as <-.
    rewrite lookup_insert_ne in Hi by congruence.
    now destruct (Hother i si Hi Hi').
  - rewrite lookup_insert_ne in Hi, Hj by congruence.
    exact (Huniq i j si sj Hi Hj Htok).
Qed.

(** Get-by-token on a stored session, tokens being unique. *)
Lemma get_session_by_token_stored (db : gmap Z Session) (id : Z)
  (s : Session) (t : Z) :
  db !! id = Some s -> unique_tokens db ->
  get_session_by_token (session_token s) t db
  = if expires_at s <? t
    then Raised (mkHTTPException HTTP_401_UNAUTHORIZED "Session expired")
    else Returned (id, s).
Proof.
  intros Hget Huniq. unfold get_session_by_token.
  now rewrite (SessionFacts.first_by_token_found _ _ _ Hget Huniq).
Qed.

(** X19.  [create_session] answers 404 when no row of [users] has the
    id, and otherwise opens the session, also for a user that is
    soft-deleted: the row has the drawn token, expires 24 hours after the
    first reading of the clock, which is at most 24 hours after its
    creation time, and get-by-token returns it at every time up to the
    expiry. *)
Theorem create_session_opens (user_id : string) (context : option dict)
  (token : string) (now1 now2 id : Z) (users : gmap string Users.User)
  (db : gmap Z Session) :
  unique_tokens db -> first_by_token token db = None -> db !! id = None ->
  now1 <= now2 ->
  (users !! user_id = None ->
     create_session user_id context token now1 now2 id users db
     = (db, Refused (mkHTTPException 404 "User not found")))
  /\ (is_Some (users !! user_id) ->
      let s := mkSession user_id token now2
                 (now1 + 24 * 3600 * 1000000) context in
      let db' := <[id := s]> db in
      create_session user_id context token now1 now2 id users db
      = (db', Inserted (id, s))
      /\ expires_at s - created_at s <= 24 * 3600 * 1000000
      /\ unique_tokens db'
      /\ forall t, t <= now1 + 24 * 3600 * 1000000 ->
           get_session_by_token token t db' = Returned (id, s)).
Proof.
  intros Huniq Hfresh Hid Hnow. split.
  - unfold create_session. now intros ->.
  - intros [u Hu] s db'. unfold create_session. rewrite Hu, Hfresh, Hid.
    rewrite !bool_decide_eq_false_2 by (intros [? ?]; discriminate).
    assert (Huniq' : unique_tokens db').
    { apply unique_tokens_insert; [exact Huniq|].
      intros i si Hi _. exact (first_by_token_None db token Hfresh i si Hi). }
    split; [reflexivity|]. split; [simpl; lia|]. split; [exact Huniq'|].
    intros t Ht.
    pose proof (get_session_by_token_stored db' id s t
                  (lookup_insert_eq db id s) Huniq') as Hgot.
    change (session_token s) with token in Hgot. rewrite Hgot.
    destruct (Z.ltb_spec (expires_at s) t) as [Hlt|]; [|reflexivity].
    unfold s, timedelta_hours in Hlt. simpl in Hlt. lia.
Qed.

(** X20.  For a stored session, tokens being unique, get-by-token
    returns the session exactly at the times up to and including its
    expiry; and after a refresh at time [now] it returns the session, with
    the new expiry, at every time up to [now] plus 24 hours, whether or not
    the session had expired. *)
Theorem refresh_revives (db : gmap Z Session) (id : Z) (s : Session)
  (now : Z) :
  db !! id = Some s -> unique_tokens db ->
  (forall t, get_session_by_token (session_token s) t db = Returned (id, s)
             <-> t <= expires_at s)
  /\ (forall t, t <= now + 24 * 3600 * 1000000 ->
        get_session_by_token (session_token s) t (refresh_session id now db).1
        = Returned (id, set_expires_at (now + 24 * 3600 * 1000000) s)).
Proof.
  intros Hget Huniq. split.
  - intros t. rewrite (get_session_by_token_stored db id s t Hget Huniq).
    destruct (Z.ltb_spec (expires_at s) t); split; try discriminate;
      try reflexivity; lia.
  - intros t Ht. unfold refresh_session. rewrite Hget. cbn [fst].
    set (s' := set_expires_at _ s).
    assert (Huniq' : unique_tokens (<[id := s']> db)).
    { apply unique_tokens_insert; [exact Huniq|].
      intros i si Hi Hne Htok. apply Hne.
      exact (Huniq i id si s Hi Hget Htok). }
    pose proof (get_session_by_token_stored (<[id := s']> db) id s' t
                  (lookup_insert_eq db id s') Huniq') as Hgot.
    change (session_token s') with (session_token s) in Hgot. rewrite Hgot.
    destruct (Z.ltb_spec (expires_at s') t) as [Hlt|]; [|reflexivity].
    unfold s', timedelta_hours in Hlt. simpl in Hlt. lia.
Qed.

(** X21.  [get_sessions] returns stored sessions of the user only, each
    at most once, at most [limit] of them, the newer before the older; and
    with nothing skipped and a limit that is large enough, it returns every
    session of the user. *)
Theorem get_sessions_listing (user_id : string) (skip limit : nat)
  (db : gmap Z Session) :
  let page := get_sessions user_id skip limit db in
  Forall (fun row => db !! row.1 = Some row.2
                     /\ Sessions.user_id row.2 = user_id) page
  /\ NoDup page.*1
  /\ (length page <= limit)%nat
  /\ StronglySorted (fun a b => created_at b.2 <= created_at a.2) page
  /\ (skip = 0%nat -> (size db <= limit)%nat ->
      forall i s, db !! i = Some s -> Sessions.user_id s = user_id ->
                  (i, s) ∈ page).
Proof.
  intros page. unfold page, get_sessions.
  set (mine := List.filter _ (map_to_list db)).
  set (sorted := merge_sort _ mine).
  assert (Hperm : sorted ≡ₚ mine) by apply merge_sort_Permutation.
  assert (Hmine : forall row, row ∈ mine <->
            db !! row.1 = Some row.2 /\ Sessions.user_id row.2 = user_id).
  { intros [i s]. unfold mine.
    rewrite list_elem_of_In, filter_In, <- list_elem_of_In,
      elem_of_map_to_list, bool_decide_eq_true. reflexivity. }
  assert (Hsub : sublist (take limit (drop skip sorted)) sorted).
  { etransitivity; [apply sublist_take|apply sublist_drop]. }
  assert (Hnd : NoDup sorted.*1).
  { rewrite Hperm. unfold mine.
    apply (sublist_NoDup _ (map_to_list db).*1);
      [apply NoDup_fst_map_to_list|].
    apply (fmap_sublist fst). clear.
    induction (map_to_list db) as [|r l IH]; simpl; [constructor|].
    destruct (bool_decide _); [now apply sublist_skip|now apply sublist_cons]. }
  assert (Hsorted : StronglySorted
            (newer_first (fun row : Z * Session => created_at row.2)) sorted)
    by (apply StronglySorted_merge_sort; apply _).
  split; [|split; [|split; [|split]]].
  - apply Forall_forall. intros row Hrow. apply Hmine. rewrite <- Hperm.
    exact (elem_of_sublist _ _ _ Hrow Hsub).
  - apply (sublist_NoDup _ sorted.*1); [exact Hnd|].
    now apply (fmap_sublist fst).
  - rewrite length_take. lia.
  - rewrite <- (take_drop skip sorted) in Hsorted.
    apply StronglySorted_app_1_r in Hsorted.
    rewrite <- (take_drop limit (drop skip sorted)) in Hsorted.
    now apply StronglySorted_app_1_l in Hsorted.
  - intros -> Hlimit i s Hget Huser. rewrite drop_0, take_ge.
    + rewrite Hperm. apply Hmine. now split.
    + rewrite Hperm. unfold mine.
      etransitivity; [apply List.filter_length_le|].
      now rewrite length_map_to_list.
Qed.

Lemma create_session_opens_witness :
  (({[ "u-1" := Users.sample_user ]} : gmap string Users.User) !! "u-1" = None ->
     create_session "u-1" None "tok-2" 5 6 4
       {[ "u-1" := Users.sample_user ]} {[ 3 := sample_session ]}
     = ({[ 3 := sample_session ]},
        Refused (mkHTTPException 404 "User not found")))
  /\ (is_Some (({[ "u-1" := Users.sample_user ]} : gmap string Users.User)
               !! "u-1") ->
      let s := mkSession "u-1" "tok-2" 6 (5 + 24 * 3600 * 1000000) None in
      let db' := <[4 := s]> ({[ 3 := sample_session ]} : gmap Z Session) in
      create_session "u-1" None "tok-2" 5 6 4
        {[ "u-1" := Users.sample_user ]} {[ 3 := sample_session ]}
      = (db', Inserted (4, s))
      /\ expires_at s - created_at s <= 24 * 3600 * 1000000
      /\ unique_tokens db'
      /\ forall t, t <= 5 + 24 * 3600 * 1000000 ->
           get_session_by_token "tok-2" t db' = Returned (4, s)).
Proof.
  apply (create_session_opens "u-1" None "tok-2" 5 6 4
           {[ "u-1" := Users.sample_user ]} {[ 3 := sample_session ]}).
  - apply SessionFacts.unique_tokens_singleton.
  - vm_compute. reflexivity.
  - vm_compute. reflexivity.
  - lia.
Defined.

(** A session that expired at day 1, refreshed at day 3. *)
Lemma refresh_revives_witness :
  (forall t, get_session_by_token (session_token sample_session) t
               {[ 3 := sample_session ]}
             = Returned (3, sample_session)
             <-> t <= expires_at sample_session)
  /\ (forall t, t <= 259200000000 + 24 * 3600 * 1000000 ->
        get_session_by_token (session_token sample_session) t
          (refresh_session 3 259200000000 {[ 3 := sample_session ]}).1
        = Returned (3, set_expires_at (259200000000 + 24 * 3600 * 1000000)
                         sample_session)).
Proof.
  apply (refresh_revives {[ 3 := sample_session ]} 3 sample_session
           259200000000).
  - apply lookup_singleton_eq.
  - apply SessionFacts.unique_tokens_singleton.
Defined.

End SessionLaws.

(** ** Deleting: tasks are removed, users are stamped *)

Module DeleteLaws.
Import AgentTasks TaskOps.

(** X22.  [delete_agent_task] removes the row: afterwards get, start,
    complete, fail and delete on that id all answer 404, and every other
    task is as it was. *)
Theorem delete_agent_task_removes (db : gmap Z AgentTask) (task_id : Z)
  (task : AgentTask) (output : dict) (duration : Z) (reason : string)
  (failed_after : option Z) :
  db !! task_id = Some task ->
  let db' := (delete_agent_task task_id db).1 in
  let not_found := Raised (mkHTTPException 404 "Task not found") in
  (delete_agent_task task_id db).2 = Returned tt
  /\ db' !! task_id = None
  /\ (forall other, other <> task_id -> db' !! other = db !! other)
  /\ get_agent_task task_id db' = not_found
  /\ start_agent_task task_id db' = (db', Responded not_found)
  /\ complete_agent_task task_id output duration db'
     = (db', Responded not_found)
  /\ fail_agent_task task_id reason failed_after db'
     = (db', Responded not_found)
  /\ delete_agent_task task_id db' = (db', Raised (mkHTTPException 404 "Task not found")).
Proof.
  intros Hget db' not_found.
  assert (Hdb' : db' = delete task_id db).
  { unfold db', delete_agent_task. now rewrite Hget. }
  assert (Hgone : db' !! task_id = None).
  { rewrite Hdb'. apply lookup_delete_eq. }
  split; [unfold delete_agent_task; now rewrite Hget|].
  split; [exact Hgone|]. split.
  - intros other Hne. rewrite Hdb'. now apply lookup_delete_ne.
  - unfold get_agent_task, start_agent_task, complete_agent_task,
      fail_agent_task, delete_agent_task. rewrite Hgone. repeat split.
Qed.

(** X23.  A second [delete_user] answers 404 and changes nothing: the
    stamp of the first deletion stays. *)
Theorem delete_user_once (db : gmap string Users.User) (user_id : string)
  (now flushed later flushed_later : Z) :
  (Users.delete_user user_id now flushed db).2 = Returned tt ->
  let db' := (Users.delete_user user_id now flushed db).1 in
  Users.delete_user user_id later flushed_later db'
  = (db', Raised (mkHTTPException 404 "User not found"))
  /\ Users.deleted_at <$> db' !! user_id = Some (Some now).
Proof.
  intros Hfirst db'. unfold Users.delete_user in Hfirst, db'.
  destruct (Users.first_live user_id db) as [u|] eqn:Hlive;
    [|discriminate].
  cbn [fst] in db'.
  assert (Hrow : db' !! user_id
                 = Some (Users.set_updated_at flushed
                           (Users.set_deleted_at (Some now) u)))
    by apply lookup_insert_eq.
  split; [|now rewrite Hrow].
  unfold Users.delete_user, Users.first_live. now rewrite Hrow.
Qed.

Lemma delete_agent_task_removes_witness :
  let db' := (delete_agent_task 7 (sample_db Column.PENDING)).1 in
  let not_found := Raised (mkHTTPException 404 "Task not found") in
  (delete_agent_task 7 (sample_db Column.PENDING)).2 = Returned tt
  /\ db' !! 7 = None
  /\ (forall other, other <> 7 ->
        db' !! other = sample_db Column.PENDING !! other)
  /\ get_agent_task 7 db' = not_found
  /\ start_agent_task 7 db' = (db', Responded not_found)
  /\ complete_agent_task 7 [] 12 db' = (db', Responded not_found)
  /\ fail_agent_task 7 "boom" None db' = (db', Responded not_found)
  /\ delete_agent_task 7 db' = (db', Raised (mkHTTPException 404 "Task not found")).
Proof.
  apply (delete_agent_task_removes (sample_db Column.PENDING) 7
           (sample_task Column.PENDING) [] 12 "boom" None).
  apply lookup_singleton_eq.
Defined.

Lemma delete_user_once_witness :
  let db' :=
    (Users.delete_user "u-1" 10 11 {[ "u-1" := Users.sample_user ]}).1 in
  Users.delete_user "u-1" 20 21 db'
  = (db', Raised (mkHTTPException 404 "User not found"))
  /\ Users.deleted_at <$> db' !! "u-1" = Some (Some 10).
Proof.
  apply (delete_user_once {[ "u-1" := Users.sample_user ]} "u-1" 10 11 20 21).
  vm_compute. reflexivity.
Defined.

End DeleteLaws.

(** ** The history of a session: [routers/dialogues.py] *)

Module DialogueLaws.
Import SessionOps Dialogues.

Lemma StronglySorted_snoc {A} (R : relation A) (l : list A) (a : A) :
  StronglySorted R l -> Forall (fun x => R x a) l ->
  StronglySorted R (l ++ [a]).
Proof.
  induction 1 as [|b l _ IH Hb]; intros Ha; simpl.
  - repeat constructor.
  - apply Forall_cons_1 in Ha as [Hba Ha]. constructor; [now apply IH|].
    apply Forall_app. split; [exact Hb|]. repeat constructor. exact Hba.
Qed.

Lemma StronglySorted_rev {A} (R : relation A) (l : list A) :
  StronglySorted R l -> StronglySorted (fun a b => R b a) (rev l).
Proof.
  induction 1 as [|a l _ IH Ha]; simpl; [constructor|].
  apply StronglySorted_snoc; [exact IH|]. now apply Forall_rev.
Qed.

Lemma elem_of_rev {A} (x : A) (l : list A) : x ∈ rev l <-> x ∈ l.
Proof. rewrite !list_elem_of_In. symmetry. apply in_rev. Qed.

(** X24.  [get_session_history] returns stored messages of the session
    only, at most [limit] of them, the older before the newer; and they
    are the newest of the session: a message of the session that is not
    returned is no newer than any that is. *)
Theorem get_session_history_newest (session_id : Z) (limit : nat)
  (db : gmap Z Dialogue) :
  let history := get_session_history session_id limit db in
  Forall (fun row => db !! row.1 = Some row.2
                     /\ Dialogues.session_id row.2 = session_id) history
  /\ (length history <= limit)%nat
  /\ StronglySorted (fun a b => created_at a.2 <= created_at b.2) history
  /\ (forall i d, db !! i = Some d -> Dialogues.session_id d = session_id ->
        (i, d) ∉ history ->
        Forall (fun row => created_at d <= created_at row.2) history).
Proof.
  intros history. unfold history, get_session_history.
  set (mine := List.filter _ (map_to_list db)).
  set (sorted := merge_sort _ mine).
  assert (Hperm : sorted ≡ₚ mine) by apply merge_sort_Permutation.
  assert (Hmine : forall row, row ∈ mine <->
            db !! row.1 = Some row.2
            /\ Dialogues.session_id row.2 = session_id).
  { intros [i d]. unfold mine.
    rewrite list_elem_of_In, filter_In, <- list_elem_of_In,
      elem_of_map_to_list, bool_decide_eq_true. reflexivity. }
  assert (Hsorted : StronglySorted
            (newer_first (fun row : Z * Dialogue => created_at row.2)) sorted)
    by (apply StronglySorted_merge_sort; apply _).
  rewrite <- (take_drop limit sorted) in Hsorted.
  split; [|split; [|split]].
  - apply Forall_forall. intros row Hrow. apply Hmine. rewrite <- Hperm.
    apply (proj1 (elem_of_rev _ _)) in Hrow.
    exact (elem_of_sublist _ _ _ Hrow (sublist_take _ _)).
  - rewrite length_rev, length_take. lia.
  - apply StronglySorted_app_1_l in Hsorted.
    exact (StronglySorted_rev _ _ Hsorted).
  - intros i d Hget Hsession Hout. apply Forall_forall. intros row Hrow.
    apply (proj1 (elem_of_rev _ _)) in Hrow.
    assert (Hin : (i, d) ∈ take limit sorted ++ drop limit sorted).
    { rewrite take_drop, Hperm. apply Hmine. now split. }
    apply elem_of_app in Hin as [Hin|Hin].
    + destruct Hout. now apply (proj2 (elem_of_rev _ _)).
    + exact (StronglySorted_app_1_elem_of _ _ _ _ _ Hsorted Hrow Hin).
Qed.

End DialogueLaws.

(** ** The news handlers *)

Module NewsLaws.
Import SessionOps Interactions News.

Lemma first_by_url_stored (db : gmap Z News.News) (i : Z) (n : News.News) :
  db !! i = Some n -> is_Some (first_by_url (url n) db).
Proof.
  intros Hget. unfold first_by_url.
  destruct (List.find _ (map_to_list db)) as [row|] eqn:Hfind; [eauto|].
  assert (Hin : In (i, n) (map_to_list db))
    by now apply list_elem_of_In, elem_of_map_to_list.
  apply (find_none _ _ Hfind) in Hin.
  now apply bool_decide_eq_false in Hin.
Qed.

Lemma first_by_url_None (db : gmap Z News.News) (u : string) :
  first_by_url u db = None ->
  forall i n, db !! i = Some n -> url n <> u.
Proof.
  intros Hnone i n Hget Hurl.
  destruct (first_by_url_stored db i n Hget) as [row Hrow].
  rewrite Hurl in Hrow. congruence.
Qed.

(** X25.  [create_news] answers 400 and stores nothing when a row has
    the URL, soft-deleted or not; otherwise it stores the article, which
    get then returns, and the URLs of the table stay pairwise different. *)
Theorem create_news_unique_url (title u : string)
  (content source : option string) (published_at : option Z)
  (now1 now2 id : Z) (db : gmap Z News.News) :
  unique_urls db -> db !! id = None ->
  (forall i n, db !! i = Some n -> url n = u ->
     create_news title u content source published_at now1 now2 id db
     = (db, Refused (mkHTTPException 400 "News with this URL already exists")))
  /\ ((forall i n, db !! i = Some n -> url n <> u) ->
      let n := mkNews title u content source published_at now1 now2 None in
      let db' := <[id := n]> db in
      create_news title u content source published_at now1 now2 id db
      = (db', Inserted (id, n))
      /\ get_news id db' = Returned (id, n)
      /\ unique_urls db').
Proof.
  intros Huniq Hid. split.
  - intros i n Hget Hurl. unfold create_news.
    destruct (first_by_url_stored db i n Hget) as [row Hrow].
    rewrite Hurl in Hrow. now rewrite Hrow.
  - intros Hfresh n db'. unfold create_news.
    destruct (first_by_url u db) as [[j nj]|] eqn:Hfind.
    + apply find_some in Hfind as [Hin Hurl].
      apply list_elem_of_In, elem_of_map_to_list in Hin.
      apply bool_decide_eq_true in Hurl. now destruct (Hfresh j nj Hin).
    + rewrite Hid, bool_decide_eq_false_2 by (intros [? ?]; discriminate).
      split; [reflexivity|]. split.
      * unfold get_news, first_live, db'. now rewrite lookup_insert_eq.
      * intros i j ni nj Hi Hj Heq. unfold db' in Hi, Hj.
        destruct (decide (i = id)) as [->|Hi'],
          (decide (j = id)) as [->|Hj']; [reflexivity| | |].
        -- rewrite lookup_insert_eq in Hi. injection Hi as <-.
           rewrite lookup_insert_ne in Hj by congruence.
           destruct (Hfresh j nj Hj). now rewrite <- Heq.
        -- rewrite lookup_insert_eq in Hj. injection Hj as <-.
           rewrite lookup_insert_ne in Hi by congruence.
           now destruct (Hfresh i ni Hi).
        -- rewrite lookup_insert_ne in Hi, Hj by congruence.
           exact (Huniq i j ni nj Hi Hj Heq).
Qed.

Lemma find_is_Some {A} (f : A -> bool) (l : list A) :
  is_Some (List.find f l) <-> exists x, x ∈ l /\ f x = true.
Proof.
  split.
  - intros [x Hx]. apply find_some in Hx as [Hin Hf].
    exists x. split; [now apply list_elem_of_In|exact Hf].
  - intros [x [Hin Hf]].
    destruct (List.find f l) as [y|] eqn:Hfind; [eauto|].
    apply list_elem_of_In in Hin. apply (find_none _ _ Hfind) in Hin.
    congruence.
Qed.

(** X26.  For an article that is not soft-deleted,
    [get_news_with_interactions] returns the article, the number of stored
    interactions with it, and whether one of them is by the given user; no
    user and the empty user id both give [False], whatever is stored.  Once
    [delete_news] has stamped the article, the same call answers 404. *)
Theorem news_with_interactions (db : gmap Z News.News)
  (interactions : gmap Z UserNewsInteraction) (id : Z) (n : News.News)
  (user : option string) (now flushed : Z) :
  db !! id = Some n -> deleted_at n = None ->
  (exists flag,
     get_news_with_interactions id user db interactions
     = Returned (mkNewsWithInteractions (id, n)
         (Z.of_nat (length (List.filter
            (fun row => bool_decide (news_id row.2 = id))
            (map_to_list interactions))))
         flag)
     /\ (flag = true <->
         exists u k row, user = Some u /\ u <> EmptyString
           /\ interactions !! k = Some row
           /\ news_id row = id /\ user_id row = u))
  /\ get_news_with_interactions id user (delete_news id now flushed db).1
       interactions
     = Raised (mkHTTPException 404 "News not found").
Proof.
  intros Hget Hlive.
  assert (Hfirst : first_live id db = Some n).
  { unfold first_live. now rewrite Hget, Hlive. }
  split.
  - unfold get_news_with_interactions. rewrite Hfirst.
    eexists. split; [reflexivity|].
    destruct user as [u|]; cbn [truthy].
    + destruct (bool_decide_reflect (u = EmptyString)) as [->|Hu];
        cbn [negb].
      * split; [discriminate|]. intros [u [k [row [[= <-] [Hne _]]]]].
        now destruct Hne.
      * rewrite bool_decide_eq_true, find_is_Some. split.
        -- intros [[k row] [Hin Hrow]].
           apply elem_of_map_to_list in Hin.
           apply andb_true_iff in Hrow as [Hnews Huser].
           apply bool_decide_eq_true in Hnews, Huser.
           injection Huser as Huser.
           exists u, k, row. now repeat split.
        -- intros [u' [k [row [[= <-] [_ [Hin [Hnews Huser]]]]]]].
           exists (k, row). split; [now apply elem_of_map_to_list|].
           cbn [snd]. rewrite Hnews, Huser.
           now rewrite !bool_decide_eq_true_2.
    + split; [discriminate|]. now intros [u [k [row [[=] _]]]].
  - unfold delete_news. rewrite Hfirst. cbn [fst].
    unfold get_news_with_interactions, first_live.
    now rewrite lookup_insert_eq.
Qed.

Lemma create_news_unique_url_witness :
  (forall i n,
     ({[ 1 := sample_news "https://a.example/1" (Some 5) ]} : gmap Z News.News)
       !! i = Some n ->
     url n = "https://a.example/1" ->
     create_news "again" "https://a.example/1" None None None 8 9 2
       {[ 1 := sample_news "https://a.example/1" (Some 5) ]}
     = ({[ 1 := sample_news "https://a.example/1" (Some 5) ]},
        Refused (mkHTTPException 400 "News with this URL already exists")))
  /\ ((forall i n,
         ({[ 1 := sample_news "https://a.example/1" (Some 5) ]}
            : gmap Z News.News) !! i = Some n ->
         url n <> "https://a.example/1") ->
      let n := mkNews "again" "https://a.example/1" None None None 8 9 None in
      let db' :=
        <[2 := n]> ({[ 1 := sample_news "https://a.example/1" (Some 5) ]}
                      : gmap Z News.News) in
      create_news "again" "https://a.example/1" None None None 8 9 2
        {[ 1 := sample_news "https://a.example/1" (Some 5) ]}
      = (db', Inserted (2, n))
      /\ get_news 2 db' = Returned (2, n)
      /\ unique_urls db').
Proof.
  apply (create_news_unique_url "again" "https://a.example/1" None None None
           8 9 2 {[ 1 := sample_news "https://a.example/1" (Some 5) ]}).
  - intros i j ni nj Hi Hj _.
    apply lookup_singleton_Some in Hi as [<- _].
    apply lookup_singleton_Some in Hj as [<- _]. reflexivity.
  - reflexivity.
Defined.

Lemma news_with_interactions_witness :
  (exists flag,
     get_news_with_interactions 1 (Some EmptyString)
       {[ 1 := sample_news "https://a.example/1" None ]}
       {[ 4 := mkUserNewsInteraction EmptyString 1 VIEW 3 ]}
     = Returned (mkNewsWithInteractions
         (1, sample_news "https://a.example/1" None)
         (Z.of_nat (length (List.filter
            (fun row => bool_decide (news_id row.2 = 1))
            (map_to_list
               ({[ 4 := mkUserNewsInteraction EmptyString 1 VIEW 3 ]}
                  : gmap Z UserNewsInteraction)))))
         flag)
     /\ (flag = true <->
         exists u k row, Some EmptyString = Some u /\ u <> EmptyString
           /\ ({[ 4 := mkUserNewsInteraction EmptyString 1 VIEW 3 ]}
                 : gmap Z UserNewsInteraction) !! k = Some row
           /\ news_id row = 1 /\ user_id row = u))
  /\ get_news_with_interactions 1 (Some EmptyString)
       (delete_news 1 10 11
          {[ 1 := sample_news "https://a.example/1" None ]}).1
       {[ 4 := mkUserNewsInteraction EmptyString 1 VIEW 3 ]}
     = Raised (mkHTTPException 404 "News not found").
Proof.
  apply (news_with_interactions
           {[ 1 := sample_news "https://a.example/1" None ]}
           {[ 4 := mkUserNewsInteraction EmptyString 1 VIEW 3 ]}
           1 (sample_news "https://a.example/1" None) (Some EmptyString)
           10 11).
  - apply lookup_singleton_eq.
  - reflexivity.
Defined.

End NewsLaws.
